(** * The breadcrumb service of angular-breadcrumb

    A model of [BreadcrumbService] (the service listing of the README and
    [breadcrumb.service.ts]): the walk [addBreadcrumb] over the activated
    route snapshots, [getLabel], and the subscription to the router events
    that feeds the [BehaviorSubject] behind [breadcrumbs$].

    JavaScript objects have identity and are mutated in place, so the
    snapshots and the breadcrumb arrays live in a heap of objects that are
    reached through locations; [addBreadcrumb] reads snapshots from the heap
    and writes to the one array it is handed. A heap may hold a cycle of
    [firstChild] links, so the recursion takes fuel, and termination on
    route trees is a theorem below. *)

From Stdlib Require Import Floats.
From stdpp Require Import gmap strings list fin_maps.

Set Warnings "-register-all".

(** ** JavaScript values *)

Section Model.

(** Function values are opaque: [Fn] is the type of the function objects a
    route configuration holds, and [call f data] is the value of [f(data)].
    Label functions are taken to be total and free of side effects, as the
    one of the routing module is. *)
Context {Fn : Type}.

Inductive JsValue : Type :=
  | JUndefined
  | JNull
  | JBoolean (b : bool)
  | JNumber (x : float)
  | JBigInt (z : Z)
  | JString (s : string)
  | JSymbol (description : string)
  | JFunction (f : Fn)
  | JObject (fields : gmap string JsValue).

(** The truthiness test of [if (v)]: ECMAScript's ToBoolean. *)
Definition toBoolean (v : JsValue) : bool :=
  match v with
  | JUndefined | JNull => false
  | JBoolean b => b
  | JNumber x => negb (PrimFloat.is_zero x || PrimFloat.is_nan x)
  | JBigInt z => negb (z =? 0)%Z
  | JString s => negb (String.eqb s "")
  | JSymbol _ | JFunction _ | JObject _ => true
  end.

(** [o.k]: reading a property that the object lacks gives [undefined]. *)
Definition prop (o : gmap string JsValue) (k : string) : JsValue :=
  default JUndefined (o !! k).

Variable call : Fn → gmap string JsValue → JsValue.

(** [getLabel(data)]:
    [typeof data.breadcrumb === 'function' ? data.breadcrumb(data) : data.breadcrumb] *)
Definition getLabel (data : gmap string JsValue) : JsValue :=
  match prop data "breadcrumb" with
  | JFunction f => call f data
  | v => v
  end.

(** ** Objects and the heap *)

(** A [UrlSegment] of the router: the code reads its [path]. *)
Record UrlSegment : Type := { path : string; parameters : gmap string string }.

(** A [Breadcrumb]. The interface declares [label] a string; at run time it
    is whatever [getLabel] returned. *)
Record Breadcrumb : Type := { label : JsValue; url : string }.

Definition loc : Type := positive.

(** An [ActivatedRouteSnapshot], with the fields the service reads: [url],
    [data], and the children, the first of which is [firstChild]. *)
Record ActivatedRouteSnapshot : Type := {
  snapshot_url : list UrlSegment;
  snapshot_data : gmap string JsValue;
  snapshot_children : list loc
}.

(** [route.firstChild]: the first child, or [null]. *)
Definition firstChild (route : ActivatedRouteSnapshot) : option loc :=
  head (snapshot_children route).

Inductive Obj : Type :=
  | Snapshot (route : ActivatedRouteSnapshot)
  | BreadcrumbArray (elems : list Breadcrumb).

(** How a call ends: normally, with a [TypeError] (a property read or a
    method call on an object of the wrong kind, which the TypeScript
    signatures exclude), or cut off by the fuel of the model. *)
Inductive Outcome (A : Type) : Type :=
  | Done (a : A)
  | TypeError
  | OutOfFuel.
Global Arguments Done {A} a.
Global Arguments TypeError {A}.
Global Arguments OutOfFuel {A}.

Definition andThen {A B : Type} (m : Outcome A) (k : A → Outcome B) : Outcome B :=
  match m with
  | Done a => k a
  | TypeError => TypeError
  | OutOfFuel => OutOfFuel
  end.

(** Reading the fields of [route]. *)
Definition readSnapshot (h : gmap loc Obj) (route : loc) : Outcome ActivatedRouteSnapshot :=
  match h !! route with
  | Some (Snapshot s) => Done s
  | _ => TypeError
  end.

(** [breadcrumbs.push(b)]: the array object is extended in place. *)
Definition push (breadcrumbs : loc) (b : Breadcrumb) (h : gmap loc Obj) : Outcome (gmap loc Obj) :=
  match h !! breadcrumbs with
  | Some (BreadcrumbArray elems) => Done (<[breadcrumbs := BreadcrumbArray (elems ++ [b])]> h)
  | _ => TypeError
  end.

(** [routeUrl.join('/')] *)
Definition join (sep : string) (parts : list string) : string :=
  String.concat sep parts.

(** ** [addBreadcrumb]

    [route] is a reference to a snapshot or [null] ([None]); [parentUrl] is
    only read ([concat] builds a new array); [breadcrumbs] is the array the
    elements are pushed to. The result is the heap after the call. *)
Fixpoint addBreadcrumb (fuel : nat) (route : option loc) (parentUrl : list string)
    (breadcrumbs : loc) (h : gmap loc Obj) : Outcome (gmap loc Obj) :=
  match fuel with
  | O => OutOfFuel
  | S fuel' =>
    match route with
    | None => Done h
    | Some r =>
      andThen (readSnapshot h r) (λ s,
        let routeUrl := parentUrl ++ map path (snapshot_url s) in
        andThen
          (if toBoolean (prop (snapshot_data s) "breadcrumb")
           then push breadcrumbs
                  {| label := getLabel (snapshot_data s);
                     url := "/" +:+ join "/" routeUrl |} h
           else Done h)
          (λ h1,
            andThen (readSnapshot h1 r) (λ s1,
              addBreadcrumb fuel' (firstChild s1) routeUrl breadcrumbs h1)))
    end
  end.

(** ** Route trees and the active path *)

(** The route tree rooted at [root] is finite: every node is a snapshot
    whose children are roots of finite trees themselves. *)
Inductive routeTree (h : gmap loc Obj) : loc → Prop :=
  | routeTree_node root s :
      h !! root = Some (Snapshot s) →
      Forall (routeTree h) (snapshot_children s) →
      routeTree h root.

(** What the walk reads of one node: its URL segments and its data bag. *)
Definition PathNode : Type := list UrlSegment * gmap string JsValue.

(** [activePath h route nodes]: the chain [route], [route.firstChild],
    [route.firstChild.firstChild], ... ends in [null] and visits [nodes]. *)
Inductive activePath (h : gmap loc Obj) : option loc → list PathNode → Prop :=
  | activePath_null : activePath h None []
  | activePath_node r s rest :
      h !! r = Some (Snapshot s) →
      activePath h (firstChild s) rest →
      activePath h (Some r) ((snapshot_url s, snapshot_data s) :: rest).

(** The objects of that chain: [activeChain h route locs] lists the
    locations of [route], [route.firstChild], ... down to the last node. *)
Inductive activeChain (h : gmap loc Obj) : option loc → list loc → Prop :=
  | activeChain_null : activeChain h None []
  | activeChain_node r s rest :
      h !! r = Some (Snapshot s) →
      activeChain h (firstChild s) rest →
      activeChain h (Some r) (r :: rest).

(** The snapshot at [l] has the same segments, data and first child in
    both heaps; its other children may differ, as may their subtrees. *)
Definition sameOnPath (h1 h2 : gmap loc Obj) (l : loc) : Prop :=
  ∃ s1 s2,
    h1 !! l = Some (Snapshot s1) ∧ h2 !! l = Some (Snapshot s2) ∧
    snapshot_url s2 = snapshot_url s1 ∧
    snapshot_data s2 = snapshot_data s1 ∧
    firstChild s2 = firstChild s1.

(** The path segments of a run of nodes, in order. *)
Definition pathSegments (nodes : list PathNode) : list string :=
  concat (map (λ n : PathNode, map path n.1) nodes).

(** The elements the walk pushes along an active path, as a list. *)
Fixpoint trail (parentUrl : list string) (nodes : list PathNode) : list Breadcrumb :=
  match nodes with
  | [] => []
  | (segments, data) :: rest =>
    let routeUrl := parentUrl ++ map path segments in
    (if toBoolean (prop data "breadcrumb")
     then [ {| label := getLabel data; url := "/" +:+ join "/" routeUrl |} ]
     else [])
    ++ trail routeUrl rest
  end.

(** The contents of the array at [l]. *)
Definition readArray (h : gmap loc Obj) (l : loc) : option (list Breadcrumb) :=
  match h !! l with
  | Some (BreadcrumbArray elems) => Some elems
  | _ => None
  end.

(** ** The service and the router events *)

(** The events of [router.events]; only [NavigationEnd] keeps its payload
    here, and the service reads none of it. *)
Inductive RouterEvent : Type :=
  | NavigationStart
  | RouteConfigLoadStart
  | RouteConfigLoadEnd
  | RoutesRecognized
  | GuardsCheckStart
  | ChildActivationStart
  | ActivationStart
  | GuardsCheckEnd
  | ResolveStart
  | ResolveEnd
  | ChildActivationEnd
  | ActivationEnd
  | NavigationEnd (id : nat) (navigatedUrl urlAfterRedirects : string)
  | NavigationCancel
  | NavigationError
  | Scroll.

(** [event instanceof NavigationEnd] *)
Definition instanceofNavigationEnd (event : RouterEvent) : bool :=
  match event with
  | NavigationEnd _ _ _ => true
  | _ => false
  end.

(** RxJS's [BehaviorSubject]: it holds a current value, hands it to each
    new subscriber at once, and hands every later value to all of them.
    The values are references to arrays. *)
Record BehaviorSubject : Type := {
  currentValue : loc;
  observers : list nat
}.

(** The heap, the router's [routerState.snapshot.root], the service's
    [_breadcrumbs$], and the values observers were handed, oldest first. *)
Record World : Type := {
  heap : gmap loc Obj;
  routerRoot : loc;
  breadcrumbsSubject : BehaviorSubject;
  delivered : list (nat * loc)
}.

(** An array or object literal: a new object at an unused location. *)
Definition alloc (o : Obj) (h : gmap loc Obj) : loc * gmap loc Obj :=
  let l := fresh (dom h) in (l, <[l := o]> h).

(** The field initialiser [new BehaviorSubject<Breadcrumb[]>([])]; the
    constructor body only subscribes [onRouterEvent] to [router.events]. *)
Definition newBreadcrumbService (h : gmap loc Obj) (root : loc) : World :=
  let '(initial, h') := alloc (BreadcrumbArray []) h in
  {| heap := h';
     routerRoot := root;
     breadcrumbsSubject := {| currentValue := initial; observers := [] |};
     delivered := [] |}.

(** [breadcrumbs$.subscribe(observer)] *)
Definition subscribe (observer : nat) (w : World) : World :=
  let subject := breadcrumbsSubject w in
  {| heap := heap w;
     routerRoot := routerRoot w;
     breadcrumbsSubject :=
       {| currentValue := currentValue subject;
          observers := observers subject ++ [observer] |};
     delivered := delivered w ++ [(observer, currentValue subject)] |}.

(** [_breadcrumbs$.next(value)] on the heap [h] the handler left. *)
Definition next (value : loc) (h : gmap loc Obj) (w : World) : World :=
  let subject := breadcrumbsSubject w in
  {| heap := h;
     routerRoot := routerRoot w;
     breadcrumbsSubject :=
       {| currentValue := value; observers := observers subject |};
     delivered := delivered w ++ map (λ o, (o, value)) (observers subject) |}.

(** The subscriber of the constructor, run on a [NavigationEnd]. *)
Definition onNavigationEnd (fuel : nat) (w : World) : Outcome World :=
  let root := routerRoot w in
  let '(breadcrumbs, h0) := alloc (BreadcrumbArray []) (heap w) in
  andThen (addBreadcrumb fuel (Some root) [] breadcrumbs h0) (λ h1,
    Done (next breadcrumbs h1 w)).

(** [router.events.pipe(filter(e => e instanceof NavigationEnd)).subscribe(...)] *)
Definition onRouterEvent (fuel : nat) (event : RouterEvent) (w : World) : Outcome World :=
  if instanceofNavigationEnd event then onNavigationEnd fuel w else Done w.

(** What happens to the service from outside: the router emits an event,
    or somebody subscribes to [breadcrumbs$]. *)
Inductive Action : Type :=
  | RouterEmits (event : RouterEvent)
  | Subscribes (observer : nat).

Definition perform (fuel : nat) (action : Action) (w : World) : Outcome World :=
  match action with
  | RouterEmits event => onRouterEvent fuel event w
  | Subscribes observer => Done (subscribe observer w)
  end.

Fixpoint performAll (fuel : nat) (actions : list Action) (w : World) : Outcome World :=
  match actions with
  | [] => Done w
  | action :: later => andThen (perform fuel action w) (performAll fuel later)
  end.

(** No navigation completes in [action]. *)
Definition completesNoNavigation (action : Action) : bool :=
  match action with
  | RouterEmits event => negb (instanceofNavigationEnd event)
  | Subscribes _ => true
  end.

(** The list behind the current value of [breadcrumbs$]. *)
Definition exposedBreadcrumbs (w : World) : option (list Breadcrumb) :=
  readArray (heap w) (currentValue (breadcrumbsSubject w)).

(** The test of [addBreadcrumb] on the entry of a node. *)
Definition hasTruthyEntry (n : PathNode) : bool :=
  toBoolean (prop n.2 "breadcrumb").



(** A [NavigationEnd] is among the actions. *)
Definition completesNavigation (actions : list Action) : bool :=
  existsb (λ action, negb (completesNoNavigation action)) actions.

End Model.

(** ** The user resolver *)

(** What [HttpClient.get(url)] asks for. *)
Inductive HttpRequest : Type := HttpGet (requestUrl : string).

Definition usersApi : string := "https://jsonplaceholder.typicode.com/users/".

(** [UserResolverService.resolve(route, state)], on [route.params]: the
    parameters matched from the URL are strings, and a parameter that is
    not there prints as [undefined] in the template string. *)
Definition resolve (params : gmap string string) : HttpRequest :=
  let id := default "undefined" (params !! "id") in
  HttpGet (usersApi +:+ id).

Global Arguments JsValue Fn : clear implicits.
Global Arguments Breadcrumb Fn : clear implicits.
Global Arguments ActivatedRouteSnapshot Fn : clear implicits.
Global Arguments Obj Fn : clear implicits.
Global Arguments PathNode Fn : clear implicits.
Global Arguments World Fn : clear implicits.

(** ** The demonstration application *)

Module Demo.

(** The one label function of the routing module,
    [(data: any) => `${data.user.name}`], on the route [users/:id]. *)
Inductive RouteFn : Type := userNameLabel.

(** The template string over [data.user.name]. The route resolves [user]
    before it is activated ([resolve: { user: UserResolverService }]), and
    the user records of the API carry a string [name], which is what the
    function returns then. On a data bag of another shape, which the route
    never holds, it is given the text [undefined]. *)
Definition callRouteFn (f : RouteFn) (data : gmap string (JsValue RouteFn)) : JsValue RouteFn :=
  match f with
  | userNameLabel =>
    match prop data "user" with
    | JObject user =>
      match prop user "name" with
      | JString name => JString name
      | _ => JString "undefined"
      end
    | _ => JString "undefined"
    end
  end.

Definition segment (p : string) : UrlSegment := {| path := p; parameters := ∅ |}.

(** The snapshots after a navigation to [/users/7]: the root, the [users]
    route and its child [:id], whose data holds the resolved user. The
    [users] node is given a second child to stand for a sibling outlet. *)
Definition rootNode : ActivatedRouteSnapshot RouteFn :=
  {| snapshot_url := []; snapshot_data := ∅; snapshot_children := [2%positive] |}.

Definition usersNode : ActivatedRouteSnapshot RouteFn :=
  {| snapshot_url := [segment "users"];
     snapshot_data := {[ "breadcrumb" := JString "Users" ]};
     snapshot_children := [3%positive; 4%positive] |}.

Definition userNode : ActivatedRouteSnapshot RouteFn :=
  {| snapshot_url := [segment "7"];
     snapshot_data :=
       <[ "breadcrumb" := JFunction userNameLabel ]>
         {[ "user" := JObject (<[ "id" := JNumber 7%float ]> {[ "name" := JString "Kurtis Weissnat" ]}) ]};
     snapshot_children := [] |}.

Definition asideNode : ActivatedRouteSnapshot RouteFn :=
  {| snapshot_url := [segment "aside"];
     snapshot_data := {[ "breadcrumb" := JString "Aside" ]};
     snapshot_children := [] |}.

Definition usersHeap : gmap loc (Obj RouteFn) :=
  <[ 1%positive := Snapshot rootNode ]>
    (<[ 2%positive := Snapshot usersNode ]>
      (<[ 3%positive := Snapshot userNode ]>
        {[ 4%positive := Snapshot asideNode ]})).

(** The same navigation with the sibling subtree replaced by another one. *)
Definition otherAsideNode : ActivatedRouteSnapshot RouteFn :=
  {| snapshot_url := [segment "help"; segment "index"];
     snapshot_data := ∅;
     snapshot_children := [5%positive] |}.

Definition usersHeap' : gmap loc (Obj RouteFn) :=
  <[ 5%positive := Snapshot asideNode ]> (<[ 4%positive := Snapshot otherAsideNode ]> usersHeap).

Definition usersPath : list (PathNode RouteFn) :=
  [ (snapshot_url rootNode, snapshot_data rootNode);
    (snapshot_url usersNode, snapshot_data usersNode);
    (snapshot_url userNode, snapshot_data userNode) ].

(** A route whose breadcrumb entry is the empty string, below [users]. *)
Definition blankNode : ActivatedRouteSnapshot RouteFn :=
  {| snapshot_url := [segment "7"];
     snapshot_data := {[ "breadcrumb" := JString "" ]};
     snapshot_children := [] |}.

Definition blankParentNode : ActivatedRouteSnapshot RouteFn :=
  {| snapshot_url := [segment "users"];
     snapshot_data := {[ "breadcrumb" := JString "Users" ]};
     snapshot_children := [3%positive] |}.

Definition blankHeap : gmap loc (Obj RouteFn) :=
  <[ 2%positive := Snapshot blankParentNode ]> {[ 3%positive := Snapshot blankNode ]}.

Definition blankPath : list (PathNode RouteFn) :=
  [ (snapshot_url blankParentNode, snapshot_data blankParentNode);
    (snapshot_url blankNode, snapshot_data blankNode) ].

(** The heaps above with an array at a location of its own. *)
Definition withArray (l : loc) (elems : list (Breadcrumb RouteFn))
    (h : gmap loc (Obj RouteFn)) : gmap loc (Obj RouteFn) :=
  <[ l := BreadcrumbArray elems ]> h.

Definition homeCrumb : Breadcrumb RouteFn :=
  {| label := JString "Home"; url := "/home" |}.

Definition usersCrumb : Breadcrumb RouteFn :=
  {| label := JString "Users"; url := "/users" |}.

Definition userCrumb : Breadcrumb RouteFn :=
  {| label := JString "Kurtis Weissnat"; url := "/users/7" |}.

(** The service on the snapshots of [/users/7], with one subscriber (the
    breadcrumb component). *)
Definition demoWorld : World RouteFn :=
  subscribe 0 (newBreadcrumbService usersHeap 1%positive).

(** A path [users], [list], [7] whose middle node has segments and a
    child, once without a breadcrumb entry and once with the empty string
    as its entry. *)
Definition listParentNode : ActivatedRouteSnapshot RouteFn :=
  {| snapshot_url := [segment "users"];
     snapshot_data := {[ "breadcrumb" := JString "Users" ]};
     snapshot_children := [3%positive] |}.

Definition plainListNode : ActivatedRouteSnapshot RouteFn :=
  {| snapshot_url := [segment "list"];
     snapshot_data := {[ "title" := JString "All users" ]};
     snapshot_children := [4%positive] |}.

Definition blankListNode : ActivatedRouteSnapshot RouteFn :=
  {| snapshot_url := [segment "list"];
     snapshot_data := {[ "breadcrumb" := JString "" ]};
     snapshot_children := [4%positive] |}.

Definition detailsNode : ActivatedRouteSnapshot RouteFn :=
  {| snapshot_url := [segment "7"];
     snapshot_data := {[ "breadcrumb" := JString "Details" ]};
     snapshot_children := [] |}.

Definition listHeap (middle : ActivatedRouteSnapshot RouteFn) : gmap loc (Obj RouteFn) :=
  <[ 9%positive := BreadcrumbArray [] ]>
    (<[ 2%positive := Snapshot listParentNode ]>
      (<[ 3%positive := Snapshot middle ]>
        {[ 4%positive := Snapshot detailsNode ]})).

Definition detailsCrumb : Breadcrumb RouteFn :=
  {| label := JString "Details"; url := "/users/list/7" |}.

(** A navigation, a second subscriber, and the navigation once more. *)
Definition demoActions : list Action :=
  [ RouterEmits NavigationStart;
    RouterEmits (NavigationEnd 1 "/users/7" "/users/7");
    Subscribes 1;
    RouterEmits (NavigationEnd 2 "/users/7" "/users/7") ].

(** A heap whose [firstChild] links form a cycle: no route tree. *)
Definition cyclicHeap : gmap loc (Obj RouteFn) :=
  {[ 1%positive := Snapshot {| snapshot_url := []; snapshot_data := ∅;
                               snapshot_children := [1%positive] |} ]}.

End Demo.

(** * Properties *)

Section Proofs.

Context {Fn : Type} (call : Fn → gmap string (JsValue Fn) → JsValue Fn).

Implicit Types (h : gmap loc (Obj Fn)) (route : option loc) (r l breadcrumbs : loc).
Implicit Types (s : ActivatedRouteSnapshot Fn) (nodes : list (PathNode Fn)).
Implicit Types (parentUrl : list string) (elems : list (Breadcrumb Fn)).

(** ** One call *)

Lemma readSnapshot_Done h r s :
  readSnapshot h r = Done s ↔ h !! r = Some (Snapshot s).
Proof.
  unfold readSnapshot. split.
  - destruct (h !! r) as [[s'|]|]; intros H; by simplify_eq.
  - by intros ->.
Qed.

Lemma push_Done breadcrumbs b h h' :
  push breadcrumbs b h = Done h' ↔
  ∃ elems, h !! breadcrumbs = Some (BreadcrumbArray elems) ∧
           h' = <[breadcrumbs := BreadcrumbArray (elems ++ [b])]> h.
Proof.
  unfold push. split.
  - destruct (h !! breadcrumbs) as [[|elems]|]; intros H; simplify_eq. eauto.
  - intros (elems & -> & ->). done.
Qed.

(** A push leaves every other object as it was, snapshots in particular. *)
Lemma push_lookup_ne breadcrumbs b h h' l :
  push breadcrumbs b h = Done h' → l ≠ breadcrumbs → h' !! l = h !! l.
Proof.
  intros (elems & _ & ->)%push_Done Hne. by rewrite lookup_insert_ne.
Qed.

Lemma push_lookup_snapshot breadcrumbs b h h' r s :
  push breadcrumbs b h = Done h' → h !! r = Some (Snapshot s) → h' !! r = Some (Snapshot s).
Proof.
  intros Hpush Hr. rewrite (push_lookup_ne _ _ _ _ _ Hpush); [done|].
  apply push_Done in Hpush as (elems & Harr & _). congruence.
Qed.

(** The node at [r] has a falsy entry: the call is the call on its first
    child with the node's segments appended, on the same heap. *)
Lemma addBreadcrumb_skip fuel h r s parentUrl breadcrumbs :
  h !! r = Some (Snapshot s) →
  toBoolean (prop (snapshot_data s) "breadcrumb") = false →
  addBreadcrumb call (S fuel) (Some r) parentUrl breadcrumbs h =
  addBreadcrumb call fuel (firstChild s) (parentUrl ++ map path (snapshot_url s)) breadcrumbs h.
Proof.
  intros Hr Hfalsy. simpl.
  rewrite (proj2 (readSnapshot_Done h r s) Hr). simpl.
  rewrite Hfalsy. simpl.
  by rewrite (proj2 (readSnapshot_Done h r s) Hr).
Qed.

(** The node at [r] has a truthy entry: one element is pushed, then the
    call goes on with the first child. *)
Lemma addBreadcrumb_push fuel h r s parentUrl breadcrumbs elems :
  h !! r = Some (Snapshot s) →
  h !! breadcrumbs = Some (BreadcrumbArray elems) →
  toBoolean (prop (snapshot_data s) "breadcrumb") = true →
  addBreadcrumb call (S fuel) (Some r) parentUrl breadcrumbs h =
  addBreadcrumb call fuel (firstChild s) (parentUrl ++ map path (snapshot_url s)) breadcrumbs
    (<[breadcrumbs :=
         BreadcrumbArray
           (elems ++ [ {| label := getLabel call (snapshot_data s);
                          url := "/" +:+ join "/" (parentUrl ++ map path (snapshot_url s)) |} ])]> h).
Proof.
  intros Hr Harr Htruthy. simpl.
  rewrite (proj2 (readSnapshot_Done h r s) Hr). simpl.
  rewrite Htruthy. unfold push. rewrite Harr. simpl.
  assert (r ≠ breadcrumbs) as Hne by congruence.
  unfold readSnapshot. rewrite lookup_insert_ne; [|done]. by rewrite Hr.
Qed.

(** ** The active path and the heap *)

(** Writing an array at a location that holds no snapshot keeps the path. *)
Lemma activePath_insert_array h route nodes breadcrumbs elems :
  activePath h route nodes →
  (∀ s, h !! breadcrumbs ≠ Some (Snapshot s)) →
  activePath (<[breadcrumbs := BreadcrumbArray elems]> h) route nodes.
Proof.
  intros Hpath Hnot. induction Hpath as [|r s rest Hr _ IH].
  - constructor.
  - constructor; [|done]. rewrite lookup_insert_ne; [done|].
    intros ->. by apply (Hnot s).
Qed.

Lemma activePath_functional h route nodes nodes' :
  activePath h route nodes → activePath h route nodes' → nodes = nodes'.
Proof.
  intros Hpath. revert nodes'. induction Hpath as [|r s rest Hr _ IH]; intros nodes' Hpath'.
  - by inversion Hpath'.
  - inversion Hpath' as [|r' s' rest' Hr' Hrest']; simplify_eq.
    f_equal. by apply IH.
Qed.

Lemma activeChain_activePath h route locs :
  activeChain h route locs →
  ∃ nodes, activePath h route nodes ∧ length nodes = length locs.
Proof.
  induction 1 as [|r s rest Hr _ (nodes & Hnodes & Hlen)].
  - exists []. split; [constructor|done].
  - exists ((snapshot_url s, snapshot_data s) :: nodes).
    split; [by constructor|]. simpl. by rewrite Hlen.
Qed.

(** A heap that agrees with [h1] on the nodes of the chain has the same
    active path. *)
Lemma activePath_sameOnPath h1 h2 route locs :
  activeChain h1 route locs →
  Forall (sameOnPath h1 h2) locs →
  ∀ nodes, activePath h1 route nodes → activePath h2 route nodes.
Proof.
  induction 1 as [|r s rest Hr _ IH]; intros Hsame nodes Hpath.
  - inversion Hpath. constructor.
  - apply Forall_cons in Hsame as [(s1 & s2 & Hr1 & Hr2 & Hurl & Hdata & Hchild) Hsame].
    inversion Hpath as [|r' s' rest' Hr' Hrest']; simplify_eq.
    rewrite <- Hurl, <- Hdata. constructor; [done|].
    rewrite Hchild. by apply IH.
Qed.

(** The first-child chain of a finite route tree is an active path. *)
Lemma routeTree_activePath h root :
  routeTree h root → ∃ nodes, activePath h (Some root) nodes.
Proof.
  revert root. fix IH 2. intros root [r s Hr Hchildren].
  cut (∃ rest, activePath h (firstChild s) rest).
  { intros [rest Hrest]. exists ((snapshot_url s, snapshot_data s) :: rest).
    by constructor. }
  unfold firstChild. destruct Hchildren as [|child others Hchild _]; simpl.
  - exists []. constructor.
  - exact (IH child Hchild).
Qed.

(** ** The walk along an active path *)

(** With fuel for one call per node and one for the final [null], the walk
    ends and has appended [trail parentUrl nodes] to the array. *)
Lemma addBreadcrumb_activePath nodes :
  ∀ fuel route parentUrl breadcrumbs h elems,
    activePath h route nodes →
    h !! breadcrumbs = Some (BreadcrumbArray elems) →
    length nodes < fuel →
    addBreadcrumb call fuel route parentUrl breadcrumbs h =
    Done (<[breadcrumbs := BreadcrumbArray (elems ++ trail call parentUrl nodes)]> h).
Proof.
  induction nodes as [|[segments data] rest IH];
    intros fuel route parentUrl breadcrumbs h elems Hpath Harr Hfuel;
    destruct fuel as [|fuel]; simpl in Hfuel; try lia.
  - inversion Hpath; subst. simpl. rewrite app_nil_r. by rewrite insert_id.
  - inversion Hpath as [|r s rest' Hr Hrest]; subst.
    destruct (toBoolean (prop (snapshot_data s) "breadcrumb")) eqn:Htruthy.
    + rewrite (addBreadcrumb_push _ _ _ _ _ _ _ Hr Harr Htruthy).
      rewrite (IH _ _ _ _ _ (elems ++ [ {| label := getLabel call (snapshot_data s);
                 url := "/" +:+ join "/" (parentUrl ++ map path (snapshot_url s)) |} ])).
      * rewrite insert_insert_eq. simpl. rewrite Htruthy. simpl.
        by rewrite <- app_assoc.
      * apply activePath_insert_array; [done|]. intros s'. congruence.
      * by rewrite lookup_insert_eq.
      * lia.
    + rewrite (addBreadcrumb_skip _ _ _ _ _ _ Hr Htruthy).
      rewrite (IH _ _ _ _ _ elems Hrest Harr); [|lia].
      simpl. by rewrite Htruthy.
Qed.

(** With less fuel the walk is cut off: it makes exactly one call per node
    of the path, and one on the [null] that ends it. *)
Lemma addBreadcrumb_out_of_fuel nodes :
  ∀ fuel route parentUrl breadcrumbs h elems,
    activePath h route nodes →
    h !! breadcrumbs = Some (BreadcrumbArray elems) →
    fuel ≤ length nodes →
    addBreadcrumb call fuel route parentUrl breadcrumbs h = OutOfFuel.
Proof.
  induction nodes as [|[segments data] rest IH];
    intros fuel route parentUrl breadcrumbs h elems Hpath Harr Hfuel;
    destruct fuel as [|fuel]; simpl in Hfuel; try done; try lia.
  inversion Hpath as [|r s rest' Hr Hrest]; subst.
  destruct (toBoolean (prop (snapshot_data s) "breadcrumb")) eqn:Htruthy.
  - rewrite (addBreadcrumb_push _ _ _ _ _ _ _ Hr Harr Htruthy).
    eapply IH; [| by rewrite lookup_insert_eq | lia].
    apply activePath_insert_array; [done|]. intros s'. congruence.
  - rewrite (addBreadcrumb_skip _ _ _ _ _ _ Hr Htruthy).
    eapply IH; [done..|lia].
Qed.

(** ** What a call writes *)

(** Whatever the heap, a call that returns has left it as it was or has
    extended the array at [breadcrumbs], and written nothing else. *)
Lemma addBreadcrumb_writes fuel :
  ∀ route parentUrl breadcrumbs h h',
    addBreadcrumb call fuel route parentUrl breadcrumbs h = Done h' →
    h' = h ∨
    ∃ elems added,
      h !! breadcrumbs = Some (BreadcrumbArray elems) ∧
      h' = <[breadcrumbs := BreadcrumbArray (elems ++ added)]> h.
Proof.
  induction fuel as [|fuel IH]; intros route parentUrl breadcrumbs h h' Hrun;
    simpl in Hrun; [done|].
  destruct route as [r|]; [|left; by simplify_eq].
  destruct (readSnapshot h r) as [s| |] eqn:Hread; simpl in Hrun; try done.
  destruct (toBoolean (prop (snapshot_data s) "breadcrumb")).
  - destruct (push breadcrumbs _ h) as [h1| |] eqn:Hpush; simpl in Hrun; try done.
    apply push_Done in Hpush as (elems & Harr & ->).
    destruct (readSnapshot (<[_ := _]> h) r) as [s1| |]; simpl in Hrun; try done.
    right. exists elems.
    destruct (IH _ _ _ _ _ Hrun) as [->|(elems1 & added & Harr1 & ->)].
    + eauto.
    + rewrite lookup_insert_eq in Harr1. simplify_eq.
      rewrite insert_insert_eq, <- app_assoc. eauto.
  - simpl in Hrun. rewrite Hread in Hrun. simpl in Hrun.
    by apply IH in Hrun.
Qed.

(** ** The trail *)

Lemma pathSegments_cons (n : PathNode Fn) nodes :
  pathSegments (n :: nodes) = map path n.1 ++ pathSegments nodes.
Proof. done. Qed.

(** When every node has a truthy entry the trail has one element per node,
    in the order of the path. *)
Lemma trail_all_truthy nodes :
  ∀ parentUrl,
    Forall (λ n : PathNode Fn, toBoolean (prop n.2 "breadcrumb") = true) nodes →
    length (trail call parentUrl nodes) = length nodes ∧
    ∀ i segments data,
      nodes !! i = Some (segments, data) →
      trail call parentUrl nodes !! i =
      Some {| label := getLabel call data;
              url := "/" +:+ join "/" (parentUrl ++ pathSegments (take (S i) nodes)) |}.
Proof.
  induction nodes as [|[segments0 data0] rest IH]; intros parentUrl Hall.
  - split; [done|]. intros i segments data Hi. by rewrite lookup_nil in Hi.
  - apply Forall_cons in Hall as [Hhead Hrest]. simpl in Hhead.
    destruct (IH (parentUrl ++ map path segments0) Hrest) as [Hlen Hnth].
    simpl. rewrite Hhead. simpl. split; [by rewrite Hlen|].
    intros [|i] segments data Hi; simpl in Hi.
    + simplify_eq. simpl. rewrite take_0, pathSegments_cons. simpl.
      by rewrite app_nil_r.
    + rewrite lookup_cons, (Hnth i segments data Hi), pathSegments_cons. simpl.
      by rewrite <- app_assoc.
Qed.

(** ** The walk from the root *)

(** C1, as amended: on an active path all of whose nodes have a truthy
    breadcrumb entry, the walk from the root with an empty parent URL
    returns and has appended one element per node to the array, in
    root-to-leaf order (so from the empty array of the constructor the list
    is as long as the path); the element of a node has the label [getLabel]
    gives for the node's data, and its URL is a slash followed by the path
    segments of all nodes from the root up to and including that node,
    joined by slashes. *)
Theorem addBreadcrumb_all_truthy h root nodes breadcrumbs elems fuel :
  activePath h (Some root) nodes →
  Forall (λ n : PathNode Fn, toBoolean (prop n.2 "breadcrumb") = true) nodes →
  h !! breadcrumbs = Some (BreadcrumbArray elems) →
  length nodes < fuel →
  ∃ h' out,
    addBreadcrumb call fuel (Some root) [] breadcrumbs h = Done h' ∧
    readArray h' breadcrumbs = Some (elems ++ out) ∧
    length out = length nodes ∧
    ∀ i segments data,
      nodes !! i = Some (segments, data) →
      out !! i = Some {| label := getLabel call data;
                         url := "/" +:+ join "/" (pathSegments (take (S i) nodes)) |}.
Proof.
  intros Hpath Hall Harr Hfuel.
  destruct (trail_all_truthy nodes [] Hall) as [Hlen Hnth].
  eexists _, (trail call [] nodes). split; [|split; [|split]].
  - by apply addBreadcrumb_activePath.
  - unfold readArray. by rewrite lookup_insert_eq.
  - done.
  - done.
Qed.

(** C2: the label of a node whose entry is a string is that string, and
    the label of a node whose entry is a function is the value of the
    function at the node's data bag; and this [getLabel] value is the label
    of the element the walk pushes for a node with a truthy entry, which
    lands right after the elements the array held before. *)
Theorem getLabel_entry (data : gmap string (JsValue Fn)) (entry : JsValue Fn) :
  data !! "breadcrumb" = Some entry →
  (∀ text, entry = JString text → getLabel call data = JString text) ∧
  (∀ f, entry = JFunction f → getLabel call data = call f data) ∧
  (∀ fuel h r s parentUrl breadcrumbs elems h',
     snapshot_data s = data →
     h !! r = Some (Snapshot s) →
     h !! breadcrumbs = Some (BreadcrumbArray elems) →
     toBoolean entry = true →
     addBreadcrumb call (S fuel) (Some r) parentUrl breadcrumbs h = Done h' →
     ∃ out, readArray h' breadcrumbs = Some out ∧
            label <$> out !! length elems = Some (getLabel call data)).
Proof.
  intros Hentry.
  assert (prop data "breadcrumb" = entry) as Hprop.
  { unfold prop. by rewrite Hentry. }
  split; [|split].
  - intros text ->. unfold getLabel. by rewrite Hprop.
  - intros f ->. unfold getLabel. by rewrite Hprop.
  - intros fuel h r s parentUrl breadcrumbs elems h' <- Hr Harr Htruthy Hrun.
    rewrite <- Hprop in Htruthy.
    rewrite (addBreadcrumb_push _ _ _ _ _ _ _ Hr Harr Htruthy) in Hrun.
    apply addBreadcrumb_writes in Hrun as [->|(elems1 & added & Harr1 & ->)].
    + eexists. unfold readArray. rewrite lookup_insert_eq. split; [done|].
      by rewrite (list_lookup_middle elems [] _ (length elems) eq_refl).
    + rewrite lookup_insert_eq in Harr1. simplify_eq.
      eexists. unfold readArray. rewrite lookup_insert_eq. split; [done|].
      rewrite <- app_assoc. simpl.
      by rewrite (list_lookup_middle elems added _ (length elems) eq_refl).
Qed.

(** C4: on a finite route tree the walk ends. The chain of first children
    from the root is an active path; with fuel for one call per node of
    it and one more for the [null] after its last node the walk returns,
    and with less fuel it is cut off, so these are all the calls made. *)
Theorem addBreadcrumb_terminates h root parentUrl breadcrumbs elems :
  routeTree h root →
  h !! breadcrumbs = Some (BreadcrumbArray elems) →
  ∃ nodes,
    activePath h (Some root) nodes ∧
    (∀ fuel, length nodes < fuel →
       ∃ h', addBreadcrumb call fuel (Some root) parentUrl breadcrumbs h = Done h') ∧
    (∀ fuel, fuel ≤ length nodes →
       addBreadcrumb call fuel (Some root) parentUrl breadcrumbs h = OutOfFuel).
Proof.
  intros Htree Harr.
  destruct (routeTree_activePath h root Htree) as [nodes Hpath].
  exists nodes. split; [done|]. split.
  - intros fuel Hfuel. eexists. by eapply addBreadcrumb_activePath.
  - intros fuel Hfuel. by eapply addBreadcrumb_out_of_fuel.
Qed.

(** Equal active paths, equal arrays and equal parent URLs give equal
    arrays, whatever else the two heaps hold. *)
Lemma addBreadcrumb_same_nodes
    h1 h2 route1 route2 nodes parentUrl breadcrumbs1 breadcrumbs2 elems fuel :
  activePath h1 route1 nodes →
  activePath h2 route2 nodes →
  h1 !! breadcrumbs1 = Some (BreadcrumbArray elems) →
  h2 !! breadcrumbs2 = Some (BreadcrumbArray elems) →
  length nodes < fuel →
  ∃ h1' h2' out,
    addBreadcrumb call fuel route1 parentUrl breadcrumbs1 h1 = Done h1' ∧
    addBreadcrumb call fuel route2 parentUrl breadcrumbs2 h2 = Done h2' ∧
    readArray h1' breadcrumbs1 = Some out ∧
    readArray h2' breadcrumbs2 = Some out.
Proof.
  intros Hpath1 Hpath2 Harr1 Harr2 Hfuel.
  eexists _, _, (elems ++ trail call parentUrl nodes).
  split; [by apply addBreadcrumb_activePath|].
  split; [by apply addBreadcrumb_activePath|].
  unfold readArray. by rewrite !lookup_insert_eq.
Qed.

(** C5: the list depends on the chain of first children only. Let [h2]
    agree with [h1] on every node of the chain from the root (the same
    segments, data and first child), and be anything elsewhere: other
    children of these nodes and all subtrees off the chain may have been
    replaced. Then the walk from the root fills equal arrays with the same
    list in both heaps. *)
Theorem addBreadcrumb_first_children_only
    h1 h2 root locs parentUrl breadcrumbs1 breadcrumbs2 elems fuel :
  activeChain h1 (Some root) locs →
  Forall (sameOnPath h1 h2) locs →
  h1 !! breadcrumbs1 = Some (BreadcrumbArray elems) →
  h2 !! breadcrumbs2 = Some (BreadcrumbArray elems) →
  length locs < fuel →
  ∃ h1' h2' out,
    addBreadcrumb call fuel (Some root) parentUrl breadcrumbs1 h1 = Done h1' ∧
    addBreadcrumb call fuel (Some root) parentUrl breadcrumbs2 h2 = Done h2' ∧
    readArray h1' breadcrumbs1 = Some out ∧
    readArray h2' breadcrumbs2 = Some out.
Proof.
  intros Hchain Hsame Harr1 Harr2 Hfuel.
  destruct (activeChain_activePath _ _ _ Hchain) as (nodes & Hpath & Hlen).
  eapply addBreadcrumb_same_nodes; [done| |done..|lia].
  by eapply activePath_sameOnPath.
Qed.

(** C7: the walk writes to no object but the array it is handed. Along an
    active path it returns, given the fuel; and a call that has returned
    has left every other location as it was, every snapshot of the heap in
    place and unchanged, and with them every active path. *)
Theorem addBreadcrumb_reads_tree fuel route parentUrl breadcrumbs h :
  (∀ nodes elems,
     activePath h route nodes →
     h !! breadcrumbs = Some (BreadcrumbArray elems) →
     length nodes < fuel →
     ∃ h', addBreadcrumb call fuel route parentUrl breadcrumbs h = Done h') ∧
  (∀ h',
     addBreadcrumb call fuel route parentUrl breadcrumbs h = Done h' →
     (∀ l, l ≠ breadcrumbs → h' !! l = h !! l) ∧
     (∀ l s, h' !! l = Some (Snapshot s) ↔ h !! l = Some (Snapshot s)) ∧
     (∀ start nodes, activePath h' start nodes ↔ activePath h start nodes)).
Proof.
  split.
  { intros nodes elems Hpath Harr Hfuel. eexists. by eapply addBreadcrumb_activePath. }
  intros h' [->|(elems & added & Harr & ->)]%addBreadcrumb_writes; [done|].
  assert (∀ l s, <[breadcrumbs := BreadcrumbArray (elems ++ added)]> h !! l = Some (Snapshot s)
                 ↔ h !! l = Some (Snapshot s)) as Hsnap.
  { intros l s. destruct (decide (l = breadcrumbs)) as [->|Hne].
    - rewrite lookup_insert_eq, Harr. split; intros; simplify_eq.
    - by rewrite lookup_insert_ne. }
  split; [|split; [done|]].
  - intros l Hne. by rewrite lookup_insert_ne.
  - intros start nodes. split.
    + intros Hpath. induction Hpath as [|r s rest Hr _ IH]; constructor; [|done].
      by apply Hsnap.
    + intros Hpath. apply activePath_insert_array; [done|]. intros s. congruence.
Qed.

(** C10: the walk only appends to the array it is handed. Along an active
    path it returns, given the fuel; and after a call that has returned,
    from whatever node, parent URL and array, the elements the array held
    before are a prefix of the elements it holds. *)
Theorem addBreadcrumb_appends fuel route parentUrl breadcrumbs h elems :
  h !! breadcrumbs = Some (BreadcrumbArray elems) →
  (∀ nodes,
     activePath h route nodes → length nodes < fuel →
     ∃ h', addBreadcrumb call fuel route parentUrl breadcrumbs h = Done h') ∧
  (∀ h',
     addBreadcrumb call fuel route parentUrl breadcrumbs h = Done h' →
     ∃ out, readArray h' breadcrumbs = Some out ∧ elems `prefix_of` out).
Proof.
  intros Harr. split.
  { intros nodes Hpath Hfuel. eexists. by eapply addBreadcrumb_activePath. }
  intros h' [->|(elems0 & added & Harr0 & ->)]%addBreadcrumb_writes.
  - exists elems. unfold readArray. by rewrite Harr.
  - assert (elems0 = elems) as -> by congruence.
    exists (elems ++ added). unfold readArray.
    rewrite lookup_insert_eq. split; [done|]. by apply prefix_app_r.
Qed.

(** ** The service *)

Implicit Types (w : World Fn).

Lemma alloc_fresh (o : Obj Fn) h : h !! (alloc o h).1 = None.
Proof. simpl. apply (not_elem_of_dom (D := gset loc)), is_fresh. Qed.

Lemma exposedBreadcrumbs_new h root :
  exposedBreadcrumbs (newBreadcrumbService h root) = Some [].
Proof.
  unfold exposedBreadcrumbs, newBreadcrumbService, readArray. simpl.
  by rewrite lookup_insert_eq.
Qed.

(** What the subscriber of the constructor does on a [NavigationEnd]. *)
Lemma onNavigationEnd_Done fuel w w' :
  onNavigationEnd call fuel w = Done w' →
  ∃ h1, let breadcrumbs := fresh (dom (heap w)) in
    addBreadcrumb call fuel (Some (routerRoot w)) [] breadcrumbs
      (<[breadcrumbs := BreadcrumbArray []]> (heap w)) = Done h1 ∧
    w' = next breadcrumbs h1 w.
Proof.
  unfold onNavigationEnd, alloc. simpl.
  destruct (addBreadcrumb _ _ _ _ _ _) as [h1| |]; simpl; intros Hrun; simplify_eq.
  by exists h1.
Qed.

Lemma perform_keeps_value fuel action w w' :
  perform call fuel action w = Done w' →
  is_Some (exposedBreadcrumbs w) → is_Some (exposedBreadcrumbs w').
Proof.
  destruct action as [event|observer]; simpl; [|by intros ?; simplify_eq].
  unfold onRouterEvent. destruct (instanceofNavigationEnd event); [|by intros ?; simplify_eq].
  intros (h1 & Hrun & ->)%onNavigationEnd_Done _. simpl in Hrun.
  unfold exposedBreadcrumbs, readArray. simpl.
  apply addBreadcrumb_writes in Hrun as [->|(elems & added & _ & ->)];
    by rewrite lookup_insert_eq.
Qed.

Lemma perform_before_navigation fuel action w :
  completesNoNavigation action = true →
  ∃ w', perform call fuel action w = Done w' ∧
        exposedBreadcrumbs w' = exposedBreadcrumbs w.
Proof.
  destruct action as [event|observer]; simpl.
  - intros Hevent%negb_true_iff. unfold onRouterEvent. rewrite Hevent. by exists w.
  - intros _. by eexists.
Qed.

(** C6: the subscriber of the constructor leaves the world as it is on
    every router event that is no [NavigationEnd], and the list behind
    [breadcrumbs$] with it. On a [NavigationEnd] the list becomes the one
    the walk builds from the root of the current snapshot, in a new array:
    no object that was there before is written, and every observer is
    handed the new array. *)
Theorem onRouterEvent_NavigationEnd_only fuel event w :
  (instanceofNavigationEnd event = false →
   onRouterEvent call fuel event w = Done w) ∧
  (instanceofNavigationEnd event = true →
   ∀ nodes,
     activePath (heap w) (Some (routerRoot w)) nodes →
     length nodes < fuel →
     ∃ w',
       onRouterEvent call fuel event w = Done w' ∧
       exposedBreadcrumbs w' = Some (trail call [] nodes) ∧
       routerRoot w' = routerRoot w ∧
       (∀ l, is_Some (heap w !! l) → heap w' !! l = heap w !! l) ∧
       delivered w' =
       delivered w ++ map (λ o, (o, currentValue (breadcrumbsSubject w')))
                          (observers (breadcrumbsSubject w))).
Proof.
  unfold onRouterEvent. split; intros ->; [done|].
  intros nodes Hpath Hfuel. unfold onNavigationEnd, alloc. simpl.
  pose proof (alloc_fresh (BreadcrumbArray []) (heap w)) as Hfresh. simpl in Hfresh.
  rewrite (addBreadcrumb_activePath nodes _ _ _ _ _ []).
  - simpl. eexists. split; [done|].
    unfold exposedBreadcrumbs, readArray. simpl.
    rewrite insert_insert_eq, lookup_insert_eq.
    split; [done|]. split; [done|]. split; [|done].
    intros l [o Hl]. rewrite lookup_insert_ne; [done|]. congruence.
  - apply activePath_insert_array; [done|]. intros s. congruence.
  - by rewrite lookup_insert_eq.
  - done.
Qed.

(** C9: the subject starts with the empty list; as long as no navigation
    has completed, whatever else happened, the list is still empty and a
    new subscriber is handed it at once; and whatever happens, there is a
    list behind the current value. *)
Theorem breadcrumbs_empty_before_navigation h root fuel :
  exposedBreadcrumbs (newBreadcrumbService h root) = Some [] ∧
  (∀ actions observer,
     forallb completesNoNavigation actions = true →
     ∃ w value,
       performAll call fuel actions (newBreadcrumbService h root) = Done w ∧
       exposedBreadcrumbs w = Some [] ∧
       delivered (subscribe observer w) = delivered w ++ [(observer, value)] ∧
       readArray (heap (subscribe observer w)) value = Some []) ∧
  (∀ actions w,
     performAll call fuel actions (newBreadcrumbService h root) = Done w →
     is_Some (exposedBreadcrumbs w)).
Proof.
  split; [apply exposedBreadcrumbs_new|]. split.
  - intros actions observer Hactions.
    cut (∀ w0, exposedBreadcrumbs w0 = Some [] →
           ∃ w, performAll call fuel actions w0 = Done w ∧ exposedBreadcrumbs w = Some []).
    { intros Hrun.
      destruct (Hrun _ (exposedBreadcrumbs_new h root)) as (w & Hw & Hempty).
      exists w, (currentValue (breadcrumbsSubject w)). done. }
    induction actions as [|action later IH]; intros w0 Hempty; simpl.
    + by exists w0.
    + simpl in Hactions. apply andb_true_iff in Hactions as [Haction Hlater].
      destruct (perform_before_navigation fuel action w0 Haction) as (w1 & -> & Hsame).
      simpl. apply (IH Hlater). by rewrite Hsame.
  - intros actions.
    cut (∀ w0 w, is_Some (exposedBreadcrumbs w0) →
           performAll call fuel actions w0 = Done w → is_Some (exposedBreadcrumbs w)).
    { intros Hrun w. apply Hrun. rewrite exposedBreadcrumbs_new. by eexists. }
    induction actions as [|action later IH]; intros w0 w Hvalue; simpl.
    + by intros ?; simplify_eq.
    + destruct (perform call fuel action w0) as [w1| |] eqn:Hstep; simpl; try done.
      apply IH. by eapply perform_keeps_value.
Qed.

End Proofs.

(** * The demonstration application, run *)

Import Demo.

Lemma usersHeap_activePath elems :
  activePath (withArray 9%positive elems usersHeap) (Some 1%positive) usersPath.
Proof.
  apply (activePath_node _ 1%positive rootNode); [vm_compute; reflexivity|].
  apply (activePath_node _ 2%positive usersNode); [vm_compute; reflexivity|].
  apply (activePath_node _ 3%positive userNode); [vm_compute; reflexivity|].
  apply activePath_null.
Qed.

Lemma usersHeap_routeTree :
  routeTree (withArray 9%positive [] usersHeap) 1%positive.
Proof.
  apply (routeTree_node _ 1%positive rootNode); [vm_compute; reflexivity|].
  apply Forall_cons; split; [|apply Forall_nil_2].
  apply (routeTree_node _ 2%positive usersNode); [vm_compute; reflexivity|].
  apply Forall_cons; split; [|apply Forall_cons; split; [|apply Forall_nil_2]].
  - apply (routeTree_node _ 3%positive userNode); [vm_compute; reflexivity|].
    apply Forall_nil_2.
  - apply (routeTree_node _ 4%positive asideNode); [vm_compute; reflexivity|].
    apply Forall_nil_2.
Qed.

Lemma blankHeap_activePath :
  activePath (withArray 9%positive [] blankHeap) (Some 2%positive) blankPath.
Proof.
  apply (activePath_node _ 2%positive blankParentNode); [vm_compute; reflexivity|].
  apply (activePath_node _ 3%positive blankNode); [vm_compute; reflexivity|].
  apply activePath_null.
Qed.

(** The walk below [users] on [/users/7]: both nodes have truthy entries. *)
Lemma addBreadcrumb_all_truthy_witness :
  ∃ h' out,
    addBreadcrumb callRouteFn 3 (Some 2%positive) [] 9%positive
      (withArray 9%positive [] usersHeap) = Done h' ∧
    readArray h' 9%positive = Some ([] ++ out) ∧
    length out = 2 ∧
    ∀ i segments data,
      drop 1 usersPath !! i = Some (segments, data) →
      out !! i = Some {| label := getLabel callRouteFn data;
                         url := "/" +:+ join "/" (pathSegments (take (S i) (drop 1 usersPath))) |}.
Proof.
  apply (addBreadcrumb_all_truthy callRouteFn
           (withArray 9%positive [] usersHeap) 2%positive (drop 1 usersPath) 9%positive [] 3).
  - apply (activePath_node _ 2%positive usersNode); [vm_compute; reflexivity|].
    apply (activePath_node _ 3%positive userNode); [vm_compute; reflexivity|].
    apply activePath_null.
  - repeat (apply Forall_cons; split; [vm_compute; reflexivity|]). apply Forall_nil_2.
  - vm_compute; reflexivity.
  - simpl; lia.
Defined.

(** C1 fails as it is stated. Below [users], whose entry is [Users], sits a
    node whose entry is the empty string: both nodes carry an entry, and the
    walk leaves one element, not two; and the URL of that element is
    [/users], with a slash in front, where joining the segments with slashes
    gives [users]. *)
Lemma addBreadcrumb_present_entries_counterexample :
  activePath (withArray 9%positive [] blankHeap) (Some 2%positive) blankPath ∧
  Forall (λ n : PathNode RouteFn, is_Some (n.2 !! "breadcrumb")) blankPath ∧
  withArray 9%positive [] blankHeap !! 9%positive = Some (BreadcrumbArray []) ∧
  ∃ h',
    addBreadcrumb callRouteFn 3 (Some 2%positive) [] 9%positive
      (withArray 9%positive [] blankHeap) = Done h' ∧
    readArray h' 9%positive = Some [usersCrumb] ∧
    length [usersCrumb] ≠ length blankPath ∧
    url usersCrumb ≠ join "/" (pathSegments (take 1 blankPath)).
Proof.
  split; [apply blankHeap_activePath|].
  split; [repeat (apply Forall_cons; split; [vm_compute; eauto|]); apply Forall_nil_2|].
  split; [vm_compute; reflexivity|].
  eexists. split; [vm_compute; reflexivity|].
  split; [vm_compute; reflexivity|].
  split; [simpl; lia|]. vm_compute. discriminate.
Qed.

(** The labels of [users] (a string) and of [users/7] (a function), and the
    element the walk pushes at [users/7]. *)
Lemma getLabel_entry_witness :
  getLabel callRouteFn (snapshot_data usersNode) = JString "Users" ∧
  getLabel callRouteFn (snapshot_data userNode) =
    callRouteFn userNameLabel (snapshot_data userNode) ∧
  ∃ h' out,
    addBreadcrumb callRouteFn 2 (Some 3%positive) ["users"] 9%positive
      (withArray 9%positive [usersCrumb] usersHeap) = Done h' ∧
    readArray h' 9%positive = Some out ∧
    label <$> out !! 1 = Some (getLabel callRouteFn (snapshot_data userNode)).
Proof.
  pose proof (getLabel_entry callRouteFn (snapshot_data usersNode) (JString "Users")
                ltac:(vm_compute; reflexivity)) as (Hstring & _ & _).
  pose proof (getLabel_entry callRouteFn (snapshot_data userNode) (JFunction userNameLabel)
                ltac:(vm_compute; reflexivity)) as (_ & Hfunction & Hpushed).
  split; [exact (Hstring "Users" eq_refl)|].
  split; [exact (Hfunction userNameLabel eq_refl)|].
  eexists.
  destruct (Hpushed 1 (withArray 9%positive [usersCrumb] usersHeap) 3%positive userNode
              ["users"] 9%positive [usersCrumb] _ eq_refl
              ltac:(vm_compute; reflexivity) ltac:(vm_compute; reflexivity)
              ltac:(vm_compute; reflexivity) ltac:(vm_compute; reflexivity))
    as (out & Hout & Hlabel).
  exists out. split; [vm_compute; reflexivity|]. split; [exact Hout|exact Hlabel].
Defined.

(** The tree of the demonstration is finite, and the walk makes four calls. *)
Lemma addBreadcrumb_terminates_witness :
  ∃ nodes,
    activePath (withArray 9%positive [] usersHeap) (Some 1%positive) nodes ∧
    (∀ fuel, length nodes < fuel →
       ∃ h', addBreadcrumb callRouteFn fuel (Some 1%positive) [] 9%positive
               (withArray 9%positive [] usersHeap) = Done h') ∧
    (∀ fuel, fuel ≤ length nodes →
       addBreadcrumb callRouteFn fuel (Some 1%positive) [] 9%positive
         (withArray 9%positive [] usersHeap) = OutOfFuel).
Proof.
  apply (addBreadcrumb_terminates callRouteFn
           (withArray 9%positive [] usersHeap) 1%positive [] 9%positive []).
  - apply usersHeap_routeTree.
  - vm_compute; reflexivity.
Defined.

(** On a cycle of first children the walk never ends, whatever the fuel. *)
Lemma addBreadcrumb_cycle fuel parentUrl :
  addBreadcrumb callRouteFn fuel (Some 1%positive) parentUrl 9%positive
    (withArray 9%positive [] cyclicHeap) = OutOfFuel.
Proof.
  revert parentUrl. induction fuel as [|fuel IH]; intros parentUrl; [done|].
  rewrite (addBreadcrumb_skip callRouteFn fuel _ 1%positive
             {| snapshot_url := []; snapshot_data := ∅; snapshot_children := [1%positive] |});
    [apply IH | vm_compute; reflexivity | vm_compute; reflexivity].
Qed.

Lemma usersHeap_activeChain :
  activeChain (withArray 9%positive [] usersHeap) (Some 1%positive)
    [1%positive; 2%positive; 3%positive].
Proof.
  apply (activeChain_node _ 1%positive rootNode); [vm_compute; reflexivity|].
  apply (activeChain_node _ 2%positive usersNode); [vm_compute; reflexivity|].
  apply (activeChain_node _ 3%positive userNode); [vm_compute; reflexivity|].
  apply activeChain_null.
Qed.

(** The sibling subtree of [users] replaced, and another array: the same list. *)
Lemma addBreadcrumb_first_children_only_witness :
  ∃ h1' h2' out,
    addBreadcrumb callRouteFn 4 (Some 1%positive) [] 9%positive
      (withArray 9%positive [] usersHeap) = Done h1' ∧
    addBreadcrumb callRouteFn 4 (Some 1%positive) [] 12%positive
      (withArray 12%positive [] usersHeap') = Done h2' ∧
    readArray h1' 9%positive = Some out ∧
    readArray h2' 12%positive = Some out.
Proof.
  apply (addBreadcrumb_first_children_only callRouteFn
           (withArray 9%positive [] usersHeap) (withArray 12%positive [] usersHeap')
           1%positive [1%positive; 2%positive; 3%positive] [] 9%positive 12%positive [] 4).
  - apply usersHeap_activeChain.
  - apply Forall_cons; split; [|apply Forall_cons; split; [|apply Forall_cons; split]].
    + exists rootNode, rootNode. repeat split; vm_compute; reflexivity.
    + exists usersNode, usersNode. repeat split; vm_compute; reflexivity.
    + exists userNode, userNode. repeat split; vm_compute; reflexivity.
    + apply Forall_nil_2.
  - vm_compute; reflexivity.
  - vm_compute; reflexivity.
  - simpl; lia.
Defined.

(** The walk of the demonstration leaves the four snapshots as they were. *)
Lemma addBreadcrumb_reads_tree_witness :
  ∃ h',
    addBreadcrumb callRouteFn 4 (Some 1%positive) [] 9%positive
      (withArray 9%positive [] usersHeap) = Done h' ∧
    (∀ l, l ≠ 9%positive → h' !! l = withArray 9%positive [] usersHeap !! l) ∧
    (∀ l s, h' !! l = Some (Snapshot s) ↔
            withArray 9%positive [] usersHeap !! l = Some (Snapshot s)) ∧
    (∀ start nodes, activePath h' start nodes ↔
                    activePath (withArray 9%positive [] usersHeap) start nodes).
Proof.
  destruct (addBreadcrumb_reads_tree callRouteFn 4 (Some 1%positive) [] 9%positive
              (withArray 9%positive [] usersHeap)) as [Hreturns Hframe].
  destruct (Hreturns usersPath [] (usersHeap_activePath [])
              ltac:(vm_compute; reflexivity) ltac:(simpl; lia)) as [h' Hrun].
  exists h'. split; [exact Hrun|]. exact (Hframe h' Hrun).
Defined.

(** The walk of the demonstration on an array that holds [Home] already. *)
Lemma addBreadcrumb_appends_witness :
  ∃ h' out,
    addBreadcrumb callRouteFn 4 (Some 1%positive) [] 9%positive
      (withArray 9%positive [homeCrumb] usersHeap) = Done h' ∧
    readArray h' 9%positive = Some out ∧ [homeCrumb] `prefix_of` out.
Proof.
  destruct (addBreadcrumb_appends callRouteFn 4 (Some 1%positive) [] 9%positive
              (withArray 9%positive [homeCrumb] usersHeap) [homeCrumb]
              ltac:(vm_compute; reflexivity)) as [Hreturns Hprefix].
  destruct (Hreturns usersPath (usersHeap_activePath [homeCrumb])
              ltac:(simpl; lia)) as [h' Hrun].
  destruct (Hprefix h' Hrun) as (out & Hout & Hpre).
  exists h', out. split; [exact Hrun|]. split; [exact Hout|exact Hpre].
Defined.

Lemma demoWorld_activePath :
  activePath (heap demoWorld) (Some (routerRoot demoWorld)) usersPath.
Proof.
  apply (activePath_node _ 1%positive rootNode); [vm_compute; reflexivity|].
  apply (activePath_node _ 2%positive usersNode); [vm_compute; reflexivity|].
  apply (activePath_node _ 3%positive userNode); [vm_compute; reflexivity|].
  apply activePath_null.
Qed.

(** The start of a navigation changes nothing; its end brings [Users] and
    the name of the user. *)
Lemma onRouterEvent_NavigationEnd_only_witness :
  onRouterEvent callRouteFn 4 NavigationStart demoWorld = Done demoWorld ∧
  ∃ w',
    onRouterEvent callRouteFn 4 (NavigationEnd 1 "/users/7" "/users/7") demoWorld = Done w' ∧
    exposedBreadcrumbs w' = Some [usersCrumb; userCrumb] ∧
    routerRoot w' = routerRoot demoWorld ∧
    (∀ l, is_Some (heap demoWorld !! l) → heap w' !! l = heap demoWorld !! l) ∧
    delivered w' =
    delivered demoWorld ++ map (λ o, (o, currentValue (breadcrumbsSubject w')))
                               (observers (breadcrumbsSubject demoWorld)).
Proof.
  split.
  - apply (proj1 (onRouterEvent_NavigationEnd_only callRouteFn 4 NavigationStart demoWorld)).
    reflexivity.
  - apply (proj2 (onRouterEvent_NavigationEnd_only callRouteFn 4
                    (NavigationEnd 1 "/users/7" "/users/7") demoWorld)
             eq_refl usersPath demoWorld_activePath).
    simpl; lia.
Defined.

(** Before the first [NavigationEnd], a second subscriber gets the empty list. *)
Lemma breadcrumbs_empty_before_navigation_witness :
  ∃ w value,
    performAll callRouteFn 4
      [RouterEmits NavigationStart; Subscribes 0; RouterEmits RoutesRecognized]
      (newBreadcrumbService usersHeap 1%positive) = Done w ∧
    exposedBreadcrumbs w = Some [] ∧
    delivered (subscribe 1 w) = delivered w ++ [(1, value)] ∧
    readArray (heap (subscribe 1 w)) value = Some [].
Proof.
  apply (proj1 (proj2 (breadcrumbs_empty_before_navigation callRouteFn
                         usersHeap 1%positive 4))).
  reflexivity.
Defined.

(** * Further properties of the walk and the service *)

Section MoreProofs.

Context {Fn : Type} (call : Fn → gmap string (JsValue Fn) → JsValue Fn).

Implicit Types (h : gmap loc (Obj Fn)) (route : option loc) (r l breadcrumbs : loc).
Implicit Types (s : ActivatedRouteSnapshot Fn) (nodes : list (PathNode Fn)).
Implicit Types (parentUrl : list string) (elems : list (Breadcrumb Fn)).
Implicit Types (w : World Fn).

(** ** Strings *)

Lemma string_app_assoc (a b c : string) : (a +:+ b) +:+ c = a +:+ (b +:+ c).
Proof.
  induction a as [|x a IH]; [done|].
  change (String x ((a +:+ b) +:+ c) = String x (a +:+ (b +:+ c))). by rewrite IH.
Qed.

(** Joining a longer list gives a longer string. *)
Lemma join_app_prefix sep (l1 l2 : list string) :
  ∃ rest, join sep (l1 ++ l2) = join sep l1 +:+ rest.
Proof.
  unfold join. induction l1 as [|x [|y l1] IH]; simpl.
  - by exists (String.concat sep l2).
  - destruct l2 as [|z l2]; simpl.
    + exists "". clear. induction x as [|c x IH]; [done|].
      change (String c x = String c (x +:+ "")). by rewrite <- IH.
    + by eexists.
  - destruct IH as [rest IH]. simpl in IH. exists rest.
    rewrite IH. by rewrite !string_app_assoc.
Qed.

(** ** The elements of the trail *)

Lemma trail_elem parentUrl nodes (b : Breadcrumb Fn) :
  b ∈ trail call parentUrl nodes ↔
  ∃ k segments data,
    nodes !! k = Some (segments, data) ∧
    toBoolean (prop data "breadcrumb") = true ∧
    b = {| label := getLabel call data;
           url := "/" +:+ join "/" (parentUrl ++ pathSegments (take (S k) nodes)) |}.
Proof.
  revert parentUrl. induction nodes as [|[segments0 data0] rest IH]; intros parentUrl; simpl.
  - split; [by intros ?%elem_of_nil|]. intros (k & ? & ? & Hk & _). by rewrite lookup_nil in Hk.
  - rewrite elem_of_app, IH. split.
    + intros [Hhead|(k & segments & data & Hk & Htruthy & ->)].
      * destruct (toBoolean (prop data0 "breadcrumb")) eqn:Htruthy;
          [|by apply elem_of_nil in Hhead].
        apply list_elem_of_singleton in Hhead as ->.
        exists 0, segments0, data0. split; [done|]. split; [done|].
        rewrite take_0, pathSegments_cons. simpl. by rewrite app_nil_r.
      * exists (S k), segments, data. split; [done|]. split; [done|].
        rewrite pathSegments_cons. simpl. by rewrite <- app_assoc.
    + intros ([|k] & segments & data & Hk & Htruthy & ->); simpl in Hk.
      * simplify_eq. left. rewrite Htruthy. apply list_elem_of_singleton.
        rewrite take_0, pathSegments_cons. simpl. by rewrite app_nil_r.
      * right. exists k, segments, data. split; [done|]. split; [done|].
        rewrite pathSegments_cons. simpl. by rewrite <- app_assoc.
Qed.

Lemma trail_labels parentUrl nodes :
  label <$> trail call parentUrl nodes =
  (λ n : PathNode Fn, getLabel call n.2) <$> List.filter hasTruthyEntry nodes.
Proof.
  revert parentUrl. induction nodes as [|[segments data] rest IH]; intros parentUrl; simpl; [done|].
  rewrite fmap_app, IH. unfold hasTruthyEntry at 2. simpl.
  by destruct (toBoolean (prop data "breadcrumb")).
Qed.

Lemma pathSegments_app nodes1 nodes2 :
  pathSegments (nodes1 ++ nodes2) = pathSegments nodes1 ++ pathSegments nodes2.
Proof. unfold pathSegments. by rewrite map_app, concat_app. Qed.

(** The trail of a path in two parts: the second part starts from the
    segments of the first. *)
Lemma trail_app nodes1 :
  ∀ parentUrl nodes2,
    trail call parentUrl (nodes1 ++ nodes2) =
    trail call parentUrl nodes1 ++ trail call (parentUrl ++ pathSegments nodes1) nodes2.
Proof.
  induction nodes1 as [|[segments data] rest IH]; intros parentUrl nodes2; simpl.
  - unfold pathSegments. simpl. by rewrite app_nil_r.
  - rewrite IH, pathSegments_cons. simpl. by rewrite <- !app_assoc.
Qed.

(** The walk around one node of the path: the elements of the nodes
    before it, then the element of the node if its entry is truthy, then
    the elements of the nodes after it, whose URLs run through the
    segments of the node. *)
Lemma addBreadcrumb_around_node h route before segments data after parentUrl breadcrumbs elems fuel :
  activePath h route (before ++ (segments, data) :: after) →
  h !! breadcrumbs = Some (BreadcrumbArray elems) →
  length (before ++ (segments, data) :: after) < fuel →
  ∃ h' outBefore outAfter,
    addBreadcrumb call fuel route parentUrl breadcrumbs h = Done h' ∧
    readArray h' breadcrumbs =
      Some (elems ++ outBefore ++
            (if toBoolean (prop data "breadcrumb")
             then [ {| label := getLabel call data;
                       url := "/" +:+ join "/" (parentUrl ++ pathSegments before
                                                          ++ map path segments) |} ]
             else []) ++ outAfter) ∧
    label <$> outBefore =
      (λ n : PathNode Fn, getLabel call n.2) <$> List.filter hasTruthyEntry before ∧
    label <$> outAfter =
      (λ n : PathNode Fn, getLabel call n.2) <$> List.filter hasTruthyEntry after ∧
    ∀ j segments' data',
      after !! j = Some (segments', data') →
      toBoolean (prop data' "breadcrumb") = true ∨
      (∃ text, prop data' "breadcrumb" = JString text ∧ text ≠ "") ∨
      (∃ f, prop data' "breadcrumb" = JFunction f) →
      {| label := getLabel call data';
         url := "/" +:+ join "/" (parentUrl ++ pathSegments before ++ map path segments
                                            ++ pathSegments (take (S j) after)) |} ∈ outAfter.
Proof.
  intros Hpath Harr Hfuel.
  exists (<[breadcrumbs := BreadcrumbArray
              (elems ++ trail call parentUrl (before ++ (segments, data) :: after))]> h),
    (trail call parentUrl before),
    (trail call ((parentUrl ++ pathSegments before) ++ map path segments) after).
  split; [by apply addBreadcrumb_activePath|].
  split; [|split; [apply trail_labels|split; [apply trail_labels|]]].
  - unfold readArray. rewrite lookup_insert_eq, trail_app. simpl.
    by rewrite <- !app_assoc.
  - intros j segments' data' Hj Hentry. apply trail_elem.
    exists j, segments', data'. split; [done|]. split; [|by rewrite <- !app_assoc].
    destruct Hentry as [Htruthy|[(text & -> & Htext)|[f ->]]]; [done| |done].
    simpl. by apply negb_true_iff, String.eqb_neq.
Qed.

(** C3: along an active path, a node whose data has no breadcrumb entry
    adds no element: the walk returns, and the array has gained the
    elements of the nodes before the node followed at once by the elements
    of the nodes after it. The walk does go on below the node, and the
    node's segments are in the URLs there: every node after it with a
    truthy entry (a non-empty string and a function are such entries) has
    its element in the array, with a URL that runs through the segments of
    the node. *)
Theorem addBreadcrumb_missing_entry
    h route before segments data after parentUrl breadcrumbs elems fuel :
  activePath h route (before ++ (segments, data) :: after) →
  data !! "breadcrumb" = None →
  h !! breadcrumbs = Some (BreadcrumbArray elems) →
  length (before ++ (segments, data) :: after) < fuel →
  ∃ h' outBefore outAfter,
    addBreadcrumb call fuel route parentUrl breadcrumbs h = Done h' ∧
    readArray h' breadcrumbs = Some (elems ++ outBefore ++ outAfter) ∧
    label <$> outBefore =
      (λ n : PathNode Fn, getLabel call n.2) <$> List.filter hasTruthyEntry before ∧
    label <$> outAfter =
      (λ n : PathNode Fn, getLabel call n.2) <$> List.filter hasTruthyEntry after ∧
    ∀ j segments' data',
      after !! j = Some (segments', data') →
      toBoolean (prop data' "breadcrumb") = true ∨
      (∃ text, prop data' "breadcrumb" = JString text ∧ text ≠ "") ∨
      (∃ f, prop data' "breadcrumb" = JFunction f) →
      {| label := getLabel call data';
         url := "/" +:+ join "/" (parentUrl ++ pathSegments before ++ map path segments
                                            ++ pathSegments (take (S j) after)) |} ∈ outAfter.
Proof.
  intros Hpath Hmissing Harr Hfuel.
  destruct (addBreadcrumb_around_node h route before segments data after parentUrl
              breadcrumbs elems fuel Hpath Harr Hfuel)
    as (h' & outBefore & outAfter & Hrun & Hout & Hbefore & Hafter & Hbelow).
  exists h', outBefore, outAfter. split; [done|]. split; [|done].
  rewrite Hout. unfold prop. by rewrite Hmissing.
Qed.

(** C8: what decides is the truthiness of the entry, not its presence.
    Along an active path, a node with an entry has its element in the
    array, between the elements of the nodes before and after it, if and
    only if [toBoolean] of the entry holds; the entries it fails for are
    [undefined], [null], [false], the zeros and [NaN], [0n] and the empty
    string. Truthy or not, the walk goes on below the node, and every node
    after it with a truthy entry (a non-empty string and a function are
    such entries) has its element in the array, with a URL that runs
    through the segments of the node. *)
Theorem addBreadcrumb_falsy_entry
    h route before segments data entry after parentUrl breadcrumbs elems fuel :
  activePath h route (before ++ (segments, data) :: after) →
  data !! "breadcrumb" = Some entry →
  h !! breadcrumbs = Some (BreadcrumbArray elems) →
  length (before ++ (segments, data) :: after) < fuel →
  (toBoolean entry = false ↔
     entry = JUndefined ∨ entry = JNull ∨ entry = JBoolean false ∨
     (∃ x, entry = JNumber x ∧ (PrimFloat.is_zero x || PrimFloat.is_nan x) = true) ∨
     entry = JBigInt 0 ∨ entry = JString "") ∧
  ∃ h' outBefore outAfter,
    addBreadcrumb call fuel route parentUrl breadcrumbs h = Done h' ∧
    readArray h' breadcrumbs =
      Some (elems ++ outBefore ++
            (if toBoolean entry
             then [ {| label := getLabel call data;
                       url := "/" +:+ join "/" (parentUrl ++ pathSegments before
                                                          ++ map path segments) |} ]
             else []) ++ outAfter) ∧
    label <$> outBefore =
      (λ n : PathNode Fn, getLabel call n.2) <$> List.filter hasTruthyEntry before ∧
    label <$> outAfter =
      (λ n : PathNode Fn, getLabel call n.2) <$> List.filter hasTruthyEntry after ∧
    ∀ j segments' data',
      after !! j = Some (segments', data') →
      toBoolean (prop data' "breadcrumb") = true ∨
      (∃ text, prop data' "breadcrumb" = JString text ∧ text ≠ "") ∨
      (∃ f, prop data' "breadcrumb" = JFunction f) →
      {| label := getLabel call data';
         url := "/" +:+ join "/" (parentUrl ++ pathSegments before ++ map path segments
                                            ++ pathSegments (take (S j) after)) |} ∈ outAfter.
Proof.
  intros Hpath Hentry Harr Hfuel. split.
  - destruct entry as [| |b|x|z|text|d|f|fields]; simpl.
    + split; [intros _; by left|done].
    + split; [intros _; right; by left|done].
    + split; [intros ->; right; right; by left|].
      intros [?|[?|[?|[(? & ? & ?)|[?|?]]]]]; by simplify_eq.
    + rewrite negb_false_iff. split.
      * intros Hx. right; right; right; left. by exists x.
      * intros [?|[?|[?|[(x' & ? & Hx)|[?|?]]]]]; by simplify_eq.
    + rewrite negb_false_iff, Z.eqb_eq. split.
      * intros ->. right; right; right; right; by left.
      * intros [?|[?|[?|[(? & ? & ?)|[?|?]]]]]; by simplify_eq.
    + rewrite negb_false_iff, String.eqb_eq. split.
      * intros ->. by repeat right.
      * intros [?|[?|[?|[(? & ? & ?)|[?|?]]]]]; by simplify_eq.
    + split; [done|]. intros [?|[?|[?|[(? & ? & ?)|[?|?]]]]]; by simplify_eq.
    + split; [done|]. intros [?|[?|[?|[(? & ? & ?)|[?|?]]]]]; by simplify_eq.
    + split; [done|]. intros [?|[?|[?|[(? & ? & ?)|[?|?]]]]]; by simplify_eq.
  - assert (prop data "breadcrumb" = entry) as <-.
    { unfold prop. by rewrite Hentry. }
    by apply addBreadcrumb_around_node.
Qed.

(** Every URL of the trail extends the URL of the parent. *)
Lemma trail_url_extends parentUrl nodes (b : Breadcrumb Fn) :
  b ∈ trail call parentUrl nodes →
  ∃ rest, url b = ("/" +:+ join "/" parentUrl) +:+ rest.
Proof.
  intros (k & segments & data & _ & _ & ->)%trail_elem. simpl.
  destruct (join_app_prefix "/" parentUrl (pathSegments (take (S k) nodes))) as [rest ->].
  exists rest. by rewrite string_app_assoc.
Qed.

Lemma trail_urls_nested nodes :
  ∀ parentUrl i j (a b : Breadcrumb Fn),
    i < j →
    trail call parentUrl nodes !! i = Some a →
    trail call parentUrl nodes !! j = Some b →
    ∃ rest, url b = url a +:+ rest.
Proof.
  induction nodes as [|[segments data] tail IH]; intros parentUrl i j a b Hij Hi Hj; simpl in *.
  - by rewrite lookup_nil in Hi.
  - destruct (toBoolean (prop data "breadcrumb")); simpl in *; [|by eapply IH].
    destruct j as [|j]; [lia|]. destruct i as [|i]; simpl in *.
    + simplify_eq. simpl. eapply trail_url_extends, list_elem_of_lookup_2, Hj.
    + eapply (IH _ i j); [lia|done..].
Qed.

(** Where every entry is a string or missing, the labels are strings, and
    none of them is empty. *)
Lemma trail_string_labels parentUrl nodes (b : Breadcrumb Fn) :
  Forall (λ n : PathNode Fn,
            prop n.2 "breadcrumb" = JUndefined ∨ ∃ text, prop n.2 "breadcrumb" = JString text)
         nodes →
  b ∈ trail call parentUrl nodes →
  ∃ text, label b = JString text ∧ text ≠ "".
Proof.
  intros Hstrings (k & segments & data & Hk & Htruthy & ->)%trail_elem.
  rewrite Forall_lookup in Hstrings.
  destruct (Hstrings k _ Hk) as [Hentry|[text Hentry]]; simpl in Hentry.
  - by rewrite Hentry in Htruthy.
  - exists text. simpl. unfold getLabel. rewrite Hentry. split; [done|].
    intros ->. by rewrite Hentry in Htruthy.
Qed.

(** ** The walk and its fuel *)

Lemma activePath_insert_array_inv h route nodes breadcrumbs elems elems' :
  h !! breadcrumbs = Some (BreadcrumbArray elems) →
  activePath (<[breadcrumbs := BreadcrumbArray elems']> h) route nodes →
  activePath h route nodes.
Proof.
  intros Harr Hpath. induction Hpath as [|r s rest Hr _ IH]; constructor; [|done].
  destruct (decide (r = breadcrumbs)) as [->|Hne].
  - by rewrite lookup_insert_eq in Hr.
  - by rewrite lookup_insert_ne in Hr.
Qed.

(** A call that returns has walked an active path, shorter than its fuel. *)
Lemma addBreadcrumb_Done_activePath fuel :
  ∀ route parentUrl breadcrumbs h h',
    addBreadcrumb call fuel route parentUrl breadcrumbs h = Done h' →
    ∃ nodes, activePath h route nodes ∧ length nodes < fuel.
Proof.
  induction fuel as [|fuel IH]; intros route parentUrl breadcrumbs h h' Hrun;
    simpl in Hrun; [done|].
  destruct route as [r|]; [|exists []; split; [constructor|simpl; lia]].
  destruct (readSnapshot h r) as [s| |] eqn:Hread; simpl in Hrun; try done.
  apply readSnapshot_Done in Hread.
  cut (∃ rest, activePath h (firstChild s) rest ∧ length rest < fuel).
  { intros (rest & Hrest & Hlen). exists ((snapshot_url s, snapshot_data s) :: rest).
    split; [by constructor|simpl; lia]. }
  destruct (toBoolean (prop (snapshot_data s) "breadcrumb")).
  - destruct (push breadcrumbs _ h) as [h1| |] eqn:Hpush; simpl in Hrun; try done.
    apply push_Done in Hpush as (elems & Harr & ->).
    assert (r ≠ breadcrumbs) as Hne by congruence.
    unfold readSnapshot in Hrun. rewrite lookup_insert_ne, Hread in Hrun; [|done].
    simpl in Hrun. destruct (IH _ _ _ _ _ Hrun) as (rest & Hrest & Hlen).
    exists rest. split; [|done]. by eapply activePath_insert_array_inv.
  - simpl in Hrun. unfold readSnapshot in Hrun. rewrite Hread in Hrun. simpl in Hrun.
    by eapply IH.
Qed.

(** Along an active path the outcome is the same for every fuel that is
    enough, also where a push fails. *)
Lemma addBreadcrumb_fuel_irrelevant nodes :
  ∀ fuel1 fuel2 route parentUrl breadcrumbs h,
    activePath h route nodes →
    length nodes < fuel1 → length nodes < fuel2 →
    addBreadcrumb call fuel1 route parentUrl breadcrumbs h =
    addBreadcrumb call fuel2 route parentUrl breadcrumbs h.
Proof.
  induction nodes as [|[segments data] rest IH];
    intros fuel1 fuel2 route parentUrl breadcrumbs h Hpath Hfuel1 Hfuel2;
    destruct fuel1 as [|fuel1]; destruct fuel2 as [|fuel2]; simpl in Hfuel1, Hfuel2; try lia.
  - by inversion Hpath.
  - inversion Hpath as [|r s rest' Hr Hrest]; subst. simpl.
    rewrite (proj2 (readSnapshot_Done h r s) Hr). simpl.
    destruct (toBoolean (prop (snapshot_data s) "breadcrumb")); simpl.
    + destruct (push breadcrumbs _ h) as [h1| |] eqn:Hpush; simpl; try done.
      apply push_Done in Hpush as (elems & Harr & ->).
      assert (r ≠ breadcrumbs) as Hne by congruence.
      unfold readSnapshot. rewrite lookup_insert_ne, Hr; [|done]. simpl.
      apply IH; [|lia..]. apply activePath_insert_array; [done|]. intros s'. congruence.
    + rewrite (proj2 (readSnapshot_Done h r s) Hr). simpl. apply IH; [done|lia..].
Qed.

(** ** Runs of the service *)

(** An action that returns keeps the router's root and every object that
    was there. *)
Lemma perform_frame fuel action w w' :
  perform call fuel action w = Done w' →
  routerRoot w' = routerRoot w ∧
  ∀ l, is_Some (heap w !! l) → heap w' !! l = heap w !! l.
Proof.
  destruct action as [event|observer]; simpl; [|by intros ?; simplify_eq].
  unfold onRouterEvent. destruct (instanceofNavigationEnd event); [|by intros ?; simplify_eq].
  intros (h1 & Hrun & ->)%onNavigationEnd_Done. simpl in *. split; [done|].
  intros l [o Hl].
  pose proof (alloc_fresh (BreadcrumbArray []) (heap w)) as Hfresh. simpl in Hfresh.
  assert (l ≠ fresh (dom (heap w))) as Hne by congruence.
  apply addBreadcrumb_writes in Hrun as [->|(elems & added & _ & ->)];
    by rewrite ?lookup_insert_ne.
Qed.

(** On a root with an active path, every action returns, keeps the path,
    and leaves the list of that path behind [breadcrumbs$] if it is a
    [NavigationEnd], and the list that was there if not. *)
Lemma perform_activePath fuel action w nodes :
  activePath (heap w) (Some (routerRoot w)) nodes →
  length nodes < fuel →
  ∃ w',
    perform call fuel action w = Done w' ∧
    activePath (heap w') (Some (routerRoot w')) nodes ∧
    exposedBreadcrumbs w' =
      if completesNoNavigation action then exposedBreadcrumbs w
      else Some (trail call [] nodes).
Proof.
  intros Hpath Hfuel. destruct action as [event|observer]; simpl; [|by eexists].
  unfold onRouterEvent. destruct (instanceofNavigationEnd event); simpl; [|by eexists].
  unfold onNavigationEnd, alloc. simpl.
  pose proof (alloc_fresh (BreadcrumbArray []) (heap w)) as Hfresh. simpl in Hfresh.
  assert (activePath (<[fresh (dom (heap w)) := BreadcrumbArray []]> (heap w))
            (Some (routerRoot w)) nodes) as Hpath0.
  { apply activePath_insert_array; [done|]. intros s. congruence. }
  rewrite (addBreadcrumb_activePath call nodes _ _ _ _ _ [] Hpath0);
    [|by rewrite lookup_insert_eq|done].
  simpl. eexists. split; [done|]. simpl. rewrite insert_insert_eq. split.
  - apply activePath_insert_array; [done|]. intros s. congruence.
  - unfold exposedBreadcrumbs, readArray. simpl. by rewrite lookup_insert_eq.
Qed.

Lemma performAll_activePath fuel actions :
  ∀ w nodes,
    activePath (heap w) (Some (routerRoot w)) nodes →
    length nodes < fuel →
    ∃ w',
      performAll call fuel actions w = Done w' ∧
      activePath (heap w') (Some (routerRoot w')) nodes ∧
      exposedBreadcrumbs w' =
        if completesNavigation actions then Some (trail call [] nodes)
        else exposedBreadcrumbs w.
Proof.
  induction actions as [|action later IH]; intros w nodes Hpath Hfuel; simpl.
  - by exists w.
  - destruct (perform_activePath fuel action w nodes Hpath Hfuel) as (w1 & -> & Hpath1 & Hlist1).
    simpl. destruct (IH w1 nodes Hpath1 Hfuel) as (w' & Hrun & Hpath' & Hlist').
    exists w'. split; [done|]. split; [done|].
    rewrite Hlist', Hlist1. unfold completesNavigation. simpl.
    destruct (completesNoNavigation action); simpl; [done|].
    by destruct (existsb _ later).
Qed.




(** ** The walk, for any entries *)

(** X1: along any active path, from any parent URL, the walk appends
    exactly the elements of the nodes with a truthy entry: an element is
    appended if and only if it is, for some such node, the label of the
    node's data with the URL of the node (a slash, then the parent URL and
    the segments from the start of the path through the node, joined by
    slashes). *)
Theorem addBreadcrumb_elements h route nodes parentUrl breadcrumbs elems fuel :
  activePath h route nodes →
  h !! breadcrumbs = Some (BreadcrumbArray elems) →
  length nodes < fuel →
  ∃ h' out,
    addBreadcrumb call fuel route parentUrl breadcrumbs h = Done h' ∧
    readArray h' breadcrumbs = Some (elems ++ out) ∧
    ∀ b, b ∈ out ↔
      ∃ k segments data,
        nodes !! k = Some (segments, data) ∧
        toBoolean (prop data "breadcrumb") = true ∧
        b = {| label := getLabel call data;
               url := "/" +:+ join "/" (parentUrl ++ pathSegments (take (S k) nodes)) |}.
Proof.
  intros Hpath Harr Hfuel. eexists _, (trail call parentUrl nodes).
  split; [by apply addBreadcrumb_activePath|].
  split; [unfold readArray; by rewrite lookup_insert_eq|].
  intros b. apply trail_elem.
Qed.

(** X2: the labels the walk appends are the labels of the nodes with a
    truthy entry, in the order of the path; so no more elements are
    appended than the path has nodes. *)
Theorem addBreadcrumb_labels_in_order h route nodes parentUrl breadcrumbs elems fuel :
  activePath h route nodes →
  h !! breadcrumbs = Some (BreadcrumbArray elems) →
  length nodes < fuel →
  ∃ h' out,
    addBreadcrumb call fuel route parentUrl breadcrumbs h = Done h' ∧
    readArray h' breadcrumbs = Some (elems ++ out) ∧
    label <$> out =
      (λ n : PathNode Fn, getLabel call n.2) <$> List.filter hasTruthyEntry nodes ∧
    length out ≤ length nodes.
Proof.
  intros Hpath Harr Hfuel. eexists _, (trail call parentUrl nodes).
  split; [by apply addBreadcrumb_activePath|].
  split; [unfold readArray; by rewrite lookup_insert_eq|].
  split; [apply trail_labels|].
  rewrite <- (length_fmap label), trail_labels, length_fmap.
  apply List.filter_length_le.
Qed.

(** X3: the URLs the walk appends are nested: each one begins with a
    slash and the joined parent URL, and the URL of a later element begins
    with the URL of every earlier one. *)
Theorem addBreadcrumb_urls_nested h route nodes parentUrl breadcrumbs elems fuel :
  activePath h route nodes →
  h !! breadcrumbs = Some (BreadcrumbArray elems) →
  length nodes < fuel →
  ∃ h' out,
    addBreadcrumb call fuel route parentUrl breadcrumbs h = Done h' ∧
    readArray h' breadcrumbs = Some (elems ++ out) ∧
    (∀ a, a ∈ out → ∃ rest, url a = ("/" +:+ join "/" parentUrl) +:+ rest) ∧
    (∀ i j a b, i < j → out !! i = Some a → out !! j = Some b →
                ∃ rest, url b = url a +:+ rest).
Proof.
  intros Hpath Harr Hfuel. eexists _, (trail call parentUrl nodes).
  split; [by apply addBreadcrumb_activePath|].
  split; [unfold readArray; by rewrite lookup_insert_eq|].
  split; [intros a; apply trail_url_extends|apply trail_urls_nested].
Qed.

(** X4: where every entry on the path is a string or is missing, every
    label the walk appends is a string, and not the empty one. *)
Theorem addBreadcrumb_string_labels h route nodes parentUrl breadcrumbs elems fuel :
  activePath h route nodes →
  Forall (λ n : PathNode Fn,
            prop n.2 "breadcrumb" = JUndefined ∨ ∃ text, prop n.2 "breadcrumb" = JString text)
         nodes →
  h !! breadcrumbs = Some (BreadcrumbArray elems) →
  length nodes < fuel →
  ∃ h' out,
    addBreadcrumb call fuel route parentUrl breadcrumbs h = Done h' ∧
    readArray h' breadcrumbs = Some (elems ++ out) ∧
    ∀ b, b ∈ out → ∃ text, label b = JString text ∧ text ≠ "".
Proof.
  intros Hpath Hstrings Harr Hfuel. eexists _, (trail call parentUrl nodes).
  split; [by apply addBreadcrumb_activePath|].
  split; [unfold readArray; by rewrite lookup_insert_eq|].
  intros b. by apply trail_string_labels.
Qed.

(** X5: a call returns only where the chain of first children ends: then
    the chain is an active path shorter than the fuel, and the call returns
    the same heap with any fuel above the length of that path. *)
Theorem addBreadcrumb_returns_on_ending_chain fuel route parentUrl breadcrumbs h h' :
  addBreadcrumb call fuel route parentUrl breadcrumbs h = Done h' →
  ∃ nodes,
    activePath h route nodes ∧
    length nodes < fuel ∧
    ∀ fuel', length nodes < fuel' →
             addBreadcrumb call fuel' route parentUrl breadcrumbs h = Done h'.
Proof.
  intros Hrun.
  destruct (addBreadcrumb_Done_activePath _ _ _ _ _ _ Hrun) as (nodes & Hpath & Hlen).
  exists nodes. split; [done|]. split; [done|].
  intros fuel' Hfuel'. rewrite <- Hrun. by eapply addBreadcrumb_fuel_irrelevant.
Qed.

(** X6: along an active path on which no node has a truthy entry, the walk
    returns the heap as it was: nothing is appended, and the array is not
    even looked at, so this holds for every [breadcrumbs]. *)
Theorem addBreadcrumb_without_entries nodes :
  ∀ fuel route parentUrl breadcrumbs h,
    activePath h route nodes →
    Forall (λ n : PathNode Fn, hasTruthyEntry n = false) nodes →
    length nodes < fuel →
    addBreadcrumb call fuel route parentUrl breadcrumbs h = Done h.
Proof.
  induction nodes as [|[segments data] rest IH];
    intros fuel route parentUrl breadcrumbs h Hpath Hfalsy Hfuel;
    destruct fuel as [|fuel]; simpl in Hfuel; try lia.
  - by inversion Hpath.
  - inversion Hpath as [|r s rest' Hr Hrest]; subst.
    apply Forall_cons in Hfalsy as [Hhead Hfalsy]. unfold hasTruthyEntry in Hhead.
    rewrite (addBreadcrumb_skip _ _ _ _ _ _ _ Hr Hhead). apply IH; [done..|lia].
Qed.

(** ** The service, over any run *)

(** X7: whatever the router emits and whoever subscribes, a run that
    returns has kept the router's root and every object that was in the
    heap before it: the snapshots, and the arrays handed out earlier. *)
Theorem service_keeps_objects fuel actions :
  ∀ w w',
    performAll call fuel actions w = Done w' →
    routerRoot w' = routerRoot w ∧
    ∀ l, is_Some (heap w !! l) → heap w' !! l = heap w !! l.
Proof.
  induction actions as [|action later IH]; intros w w'; simpl.
  - by intros ?; simplify_eq.
  - destruct (perform call fuel action w) as [w1| |] eqn:Hstep; simpl; try done.
    intros Hrun. apply perform_frame in Hstep as [Hroot1 Hframe1].
    apply IH in Hrun as [Hroot Hframe]. split; [congruence|].
    intros l Hl. rewrite Hframe; [by apply Hframe1|]. by rewrite Hframe1.
Qed.

(** X8: the list behind [breadcrumbs$] does not depend on the history:
    on a root with an active path, any two runs in which a navigation
    completes return and leave the same list. *)
Theorem service_list_independent_of_history fuel actions1 actions2 w nodes :
  activePath (heap w) (Some (routerRoot w)) nodes →
  length nodes < fuel →
  completesNavigation actions1 = true →
  completesNavigation actions2 = true →
  ∃ w1 w2 list,
    performAll call fuel actions1 w = Done w1 ∧
    performAll call fuel actions2 w = Done w2 ∧
    exposedBreadcrumbs w1 = Some list ∧
    exposedBreadcrumbs w2 = Some list.
Proof.
  intros Hpath Hfuel Hnav1 Hnav2.
  destruct (performAll_activePath fuel actions1 w nodes Hpath Hfuel) as (w1 & Hrun1 & _ & Hlist1).
  destruct (performAll_activePath fuel actions2 w nodes Hpath Hfuel) as (w2 & Hrun2 & _ & Hlist2).
  rewrite Hnav1 in Hlist1. rewrite Hnav2 in Hlist2. by exists w1, w2, (trail call [] nodes).
Qed.


End MoreProofs.

(** ** The user resolver *)

(** X10: the request of the resolver is decided by the [id] parameter and
    by nothing else: two routes ask for the same URL if and only if their
    ids are the same. *)
Theorem resolve_by_id (params1 params2 : gmap string string) (id1 id2 : string) :
  params1 !! "id" = Some id1 →
  params2 !! "id" = Some id2 →
  resolve params1 = resolve params2 ↔ id1 = id2.
Proof.
  intros Hid1 Hid2. unfold resolve. rewrite Hid1, Hid2.
  change (HttpGet (usersApi +:+ id1) = HttpGet (usersApi +:+ id2) ↔ id1 = id2). split.
  - intros Hsame.
    assert (usersApi +:+ id1 = usersApi +:+ id2) as Hurl by congruence.
    by apply (inj (String.app usersApi)) in Hurl.
  - by intros ->.
Qed.

(** * The further properties on the demonstration *)

(** The walk of [/users/7] from the root: the root has no entry. *)
Lemma addBreadcrumb_elements_witness :
  ∃ h' out,
    addBreadcrumb callRouteFn 4 (Some 1%positive) [] 9%positive
      (withArray 9%positive [homeCrumb] usersHeap) = Done h' ∧
    readArray h' 9%positive = Some ([homeCrumb] ++ out) ∧
    ∀ b, b ∈ out ↔
      ∃ k segments data,
        usersPath !! k = Some (segments, data) ∧
        toBoolean (prop data "breadcrumb") = true ∧
        b = {| label := getLabel callRouteFn data;
               url := "/" +:+ join "/" ([] ++ pathSegments (take (S k) usersPath)) |}.
Proof.
  apply (addBreadcrumb_elements callRouteFn _ (Some 1%positive) usersPath [] 9%positive
           [homeCrumb] 4 (usersHeap_activePath [homeCrumb])).
  - vm_compute; reflexivity.
  - simpl; lia.
Defined.

Lemma addBreadcrumb_labels_in_order_witness :
  ∃ h' out,
    addBreadcrumb callRouteFn 4 (Some 1%positive) [] 9%positive
      (withArray 9%positive [] usersHeap) = Done h' ∧
    readArray h' 9%positive = Some ([] ++ out) ∧
    label <$> out = [JString "Users"; JString "Kurtis Weissnat"] ∧
    length out ≤ 3.
Proof.
  apply (addBreadcrumb_labels_in_order callRouteFn _ (Some 1%positive) usersPath [] 9%positive
           [] 4 (usersHeap_activePath [])).
  - vm_compute; reflexivity.
  - simpl; lia.
Defined.

Lemma addBreadcrumb_urls_nested_witness :
  ∃ h' out,
    addBreadcrumb callRouteFn 4 (Some 1%positive) ["app"] 9%positive
      (withArray 9%positive [] usersHeap) = Done h' ∧
    readArray h' 9%positive = Some ([] ++ out) ∧
    (∀ a, a ∈ out → ∃ rest, url a = ("/" +:+ join "/" ["app"]) +:+ rest) ∧
    (∀ i j a b, i < j → out !! i = Some a → out !! j = Some b →
                ∃ rest, url b = url a +:+ rest).
Proof.
  apply (addBreadcrumb_urls_nested callRouteFn _ (Some 1%positive) usersPath ["app"] 9%positive
           [] 4 (usersHeap_activePath [])).
  - vm_compute; reflexivity.
  - simpl; lia.
Defined.

(** The path with the entries [Users] and the empty string. *)
Lemma addBreadcrumb_string_labels_witness :
  ∃ h' out,
    addBreadcrumb callRouteFn 3 (Some 2%positive) [] 9%positive
      (withArray 9%positive [] blankHeap) = Done h' ∧
    readArray h' 9%positive = Some ([] ++ out) ∧
    ∀ b, b ∈ out → ∃ text, label b = JString text ∧ text ≠ "".
Proof.
  apply (addBreadcrumb_string_labels callRouteFn _ (Some 2%positive) blankPath [] 9%positive
           [] 3 blankHeap_activePath).
  - apply Forall_cons; split; [right; by exists "Users"|].
    apply Forall_cons; split; [right; by exists ""|]. apply Forall_nil_2.
  - vm_compute; reflexivity.
  - simpl; lia.
Defined.

Lemma addBreadcrumb_returns_on_ending_chain_witness :
  ∃ nodes,
    activePath (withArray 9%positive [] usersHeap) (Some 1%positive) nodes ∧
    length nodes < 7 ∧
    ∀ fuel', length nodes < fuel' →
      addBreadcrumb callRouteFn fuel' (Some 1%positive) [] 9%positive
        (withArray 9%positive [] usersHeap) =
      Done (withArray 9%positive [usersCrumb; userCrumb] usersHeap).
Proof.
  apply (addBreadcrumb_returns_on_ending_chain callRouteFn 7 (Some 1%positive) [] 9%positive).
  vm_compute; reflexivity.
Defined.

(** Below the node with the empty string nothing is written, array or not. *)
Lemma addBreadcrumb_without_entries_witness :
  addBreadcrumb callRouteFn 2 (Some 3%positive) ["users"] 9%positive blankHeap = Done blankHeap.
Proof.
  apply (addBreadcrumb_without_entries callRouteFn [(snapshot_url blankNode, snapshot_data blankNode)]).
  - apply (activePath_node _ 3%positive blankNode); [vm_compute; reflexivity|].
    apply activePath_null.
  - apply Forall_cons; split; [vm_compute; reflexivity|apply Forall_nil_2].
  - simpl; lia.
Defined.

Lemma service_keeps_objects_witness :
  ∃ w',
    performAll callRouteFn 4 demoActions demoWorld = Done w' ∧
    routerRoot w' = routerRoot demoWorld ∧
    ∀ l, is_Some (heap demoWorld !! l) → heap w' !! l = heap demoWorld !! l.
Proof.
  destruct (performAll_activePath callRouteFn 4 demoActions demoWorld usersPath
              demoWorld_activePath ltac:(simpl; lia)) as (w' & Hrun & _).
  exists w'. split; [exact Hrun|].
  exact (service_keeps_objects callRouteFn 4 demoActions demoWorld w' Hrun).
Defined.

Lemma service_list_independent_of_history_witness :
  ∃ w1 w2 list,
    performAll callRouteFn 4 demoActions demoWorld = Done w1 ∧
    performAll callRouteFn 4 [RouterEmits (NavigationEnd 1 "/users/7" "/users/7")] demoWorld
      = Done w2 ∧
    exposedBreadcrumbs w1 = Some list ∧
    exposedBreadcrumbs w2 = Some list.
Proof.
  apply (service_list_independent_of_history callRouteFn 4 demoActions
           [RouterEmits (NavigationEnd 1 "/users/7" "/users/7")] demoWorld usersPath
           demoWorld_activePath).
  - simpl; lia.
  - reflexivity.
  - reflexivity.
Defined.


Lemma resolve_by_id_witness :
  resolve {[ "id" := "7" ]} = resolve (<[ "id" := "7" ]> {[ "tab" := "posts" ]}) ∧
  resolve {[ "id" := "7" ]} ≠ resolve {[ "id" := "8" ]}.
Proof.
  split.
  - apply (resolve_by_id {[ "id" := "7" ]} (<[ "id" := "7" ]> {[ "tab" := "posts" ]}) "7" "7");
      vm_compute; reflexivity.
  - intros Hsame.
    apply (resolve_by_id {[ "id" := "7" ]} {[ "id" := "8" ]} "7" "8") in Hsame;
      [discriminate|vm_compute; reflexivity..].
Defined.

(** * The node in the middle of a path *)

(** [users], then [list] without an entry, then [7]: two elements, and the
    URL of the second runs through [list]. *)
Lemma addBreadcrumb_missing_entry_witness :
  ∃ h' outBefore outAfter,
    addBreadcrumb callRouteFn 4 (Some 2%positive) [] 9%positive (listHeap plainListNode)
      = Done h' ∧
    readArray h' 9%positive = Some ([] ++ outBefore ++ outAfter) ∧
    readArray h' 9%positive = Some [usersCrumb; detailsCrumb] ∧
    label <$> outBefore = [JString "Users"] ∧
    label <$> outAfter = [JString "Details"] ∧
    detailsCrumb ∈ outAfter.
Proof.
  destruct (addBreadcrumb_missing_entry callRouteFn (listHeap plainListNode) (Some 2%positive)
              [(snapshot_url listParentNode, snapshot_data listParentNode)]
              (snapshot_url plainListNode) (snapshot_data plainListNode)
              [(snapshot_url detailsNode, snapshot_data detailsNode)]
              [] 9%positive [] 4)
    as (h' & outBefore & outAfter & Hrun & Hout & Hbefore & Hafter & Hbelow).
  - apply (activePath_node _ 2%positive listParentNode); [vm_compute; reflexivity|].
    apply (activePath_node _ 3%positive plainListNode); [vm_compute; reflexivity|].
    apply (activePath_node _ 4%positive detailsNode); [vm_compute; reflexivity|].
    apply activePath_null.
  - vm_compute; reflexivity.
  - vm_compute; reflexivity.
  - simpl; lia.
  - exists h', outBefore, outAfter.
    split; [exact Hrun|]. split; [exact Hout|]. split.
    { assert (addBreadcrumb callRouteFn 4 (Some 2%positive) [] 9%positive
                (listHeap plainListNode)
              = Done (<[9%positive := BreadcrumbArray [usersCrumb; detailsCrumb]]>
                        (listHeap plainListNode))) as Hrun'
        by (vm_compute; reflexivity).
      rewrite Hrun in Hrun'. injection Hrun' as ->. vm_compute; reflexivity. }
    split; [exact Hbefore|]. split; [exact Hafter|].
    apply (Hbelow 0 _ _ eq_refl). right; left. by exists "Details".
Defined.

(** [users], then [list] with the empty string as its entry, then [7]: the
    same two elements. *)
Lemma addBreadcrumb_falsy_entry_witness :
  toBoolean (JString "" : JsValue RouteFn) = false ∧
  ∃ h' (outBefore outAfter : list (Breadcrumb RouteFn)),
    addBreadcrumb callRouteFn 4 (Some 2%positive) [] 9%positive (listHeap blankListNode)
      = Done h' ∧
    readArray h' 9%positive = Some ([] ++ outBefore ++ [] ++ outAfter) ∧
    readArray h' 9%positive = Some [usersCrumb; detailsCrumb] ∧
    label <$> outBefore = [JString "Users"] ∧
    label <$> outAfter = [JString "Details"] ∧
    detailsCrumb ∈ outAfter.
Proof.
  destruct (addBreadcrumb_falsy_entry callRouteFn (listHeap blankListNode) (Some 2%positive)
              [(snapshot_url listParentNode, snapshot_data listParentNode)]
              (snapshot_url blankListNode) (snapshot_data blankListNode) (JString "")
              [(snapshot_url detailsNode, snapshot_data detailsNode)]
              [] 9%positive [] 4)
    as (Hfalsy & h' & outBefore & outAfter & Hrun & Hout & Hbefore & Hafter & Hbelow).
  - apply (activePath_node _ 2%positive listParentNode); [vm_compute; reflexivity|].
    apply (activePath_node _ 3%positive blankListNode); [vm_compute; reflexivity|].
    apply (activePath_node _ 4%positive detailsNode); [vm_compute; reflexivity|].
    apply activePath_null.
  - vm_compute; reflexivity.
  - vm_compute; reflexivity.
  - simpl; lia.
  - split; [apply Hfalsy; by repeat right|].
    exists h', outBefore, outAfter. split; [exact Hrun|]. split; [exact Hout|]. split.
    { assert (addBreadcrumb callRouteFn 4 (Some 2%positive) [] 9%positive
                (listHeap blankListNode)
              = Done (<[9%positive := BreadcrumbArray [usersCrumb; detailsCrumb]]>
                        (listHeap blankListNode))) as Hrun'
        by (vm_compute; reflexivity).
      rewrite Hrun in Hrun'. injection Hrun' as ->. vm_compute; reflexivity. }
    split; [exact Hbefore|]. split; [exact Hafter|].
    apply (Hbelow 0 _ _ eq_refl). right; left. by exists "Details".
Defined.
